(** * node-dgram: the per-socket scheduler of [src/node-dgram.js]

    A shallow embedding of the [Socket] class and of its three tasks
    ([Spawn], [Send], [Close]).  An [async] function is split at its
    [await]s: the code between two suspension points is one atomic
    transition of a [World], and the value a host promise settles with
    (DNS record, created handle, failure, ...) is an input of the
    transition system.

    Boundary of the model.
    - The host collaborators ([lib.dns], [lib.UDPSocket], the handle) are
      known by their Flow interfaces only: every call is logged in the
      trace and its promise settles later, with any outcome.
    - [EventEmitter] is the imported "events" module.  [emit] is a
      notification logged in the trace.  Listeners and completion callbacks
      are user code, taken to return normally; in particular the socket is
      taken to have an "error" listener, since the emitter throws an "error"
      event nobody listens to.
    - [Buffer] is the one of buffer@5.1.0, the dependency of package.json.
    - JavaScript numbers are the integer-valued ones.
    - One world holds one socket; sockets share no state.
    - [address] and the multicast methods assign no field of the socket:
      they are functions of the socket and of what the handle answers. *)

From Stdlib Require Import ZArith List String Ascii Bool Lia Arith.
From Stdlib.Strings Require Import Byte.
Import ListNotations.
Local Open Scope string_scope.
Local Open Scope list_scope.

(* ================================================================= *)
(** ** JavaScript values *)

Definition FunId := nat.
Definition Handle := nat.

(** A [Uint8Array]; [isBuffer] tells a [Buffer] of the "buffer" package
    from a plain typed array.  [arrayBuffer] is the [.buffer] property:
    the store the view looks into. *)
Record Uint8Array := mkU8 {
  isBuffer : bool;
  arrayBuffer : list byte;
  byteOffset : nat;
  byteLength : nat
}.

#[warnings="-register-all"] Inductive JsVal : Type :=
| VUndefined
| VNull
| VBool (b : bool)
| VNum (n : Z)
| VStr (s : string)
| VFun (f : FunId)
| VBytes (b : Uint8Array)
| VArr (l : list JsVal)
| VObj (fields : list (string * JsVal)).

(** [!!v] *)
Definition truthy (v : JsVal) : bool :=
  match v with
  | VUndefined | VNull => false
  | VBool b => b
  | VNum n => negb (n =? 0)%Z
  | VStr s => negb (String.eqb s EmptyString)
  | VFun _ | VBytes _ | VArr _ | VObj _ => true
  end.

(** [typeof v === "function"], [typeof v === "string"] *)
Definition is_function (v : JsVal) : bool :=
  match v with VFun _ => true | _ => false end.

Definition is_string (v : JsVal) : bool :=
  match v with VStr _ => true | _ => false end.

(** [v !== null && typeof v === "object"] *)
Definition is_object (v : JsVal) : bool :=
  match v with VBytes _ | VArr _ | VObj _ => true | _ => false end.

Fixpoint lookup_field (fields : list (string * JsVal)) (name : string) : JsVal :=
  match fields with
  | [] => VUndefined
  | (k, v) :: rest => if String.eqb k name then v else lookup_field rest name
  end.

(** [v.name], for the option objects the methods read. *)
Definition get_prop (v : JsVal) (name : string) : JsVal :=
  match v with
  | VObj fields => lookup_field fields name
  | _ => VUndefined
  end.

(** [a || b] *)
Definition js_or (a b : JsVal) : JsVal := if truthy a then a else b.

(** [v === "udp4"] *)
Definition is_udp4 (v : JsVal) : bool :=
  match v with VStr s => String.eqb s "udp4" | _ => false end.

(** What the engine does with a string or an object where a number is
    expected: ECMAScript's ToNumber, truncated; [None] is NaN. *)
Class Engine := { ToNumber_other : JsVal -> option Z }.

Definition two32 : Z := 4294967296%Z.

Section Coercions.
Context {E : Engine}.

(** ToNumber then truncation, NaN as 0. *)
Definition to_integer (v : JsVal) : Z :=
  match v with
  | VNum n => n
  | VBool true => 1%Z
  | VUndefined | VNull | VBool false | VFun _ => 0%Z
  | VStr _ | VBytes _ | VArr _ | VObj _ =>
      match ToNumber_other v with Some n => n | None => 0%Z end
  end.

(** [v >>> 0] *)
Definition to_uint32 (v : JsVal) : Z := (to_integer v mod two32)%Z.
End Coercions.

(** [~~n] on an integer *)
Definition to_int32 (n : Z) : Z := ((n + 2147483648) mod two32 - 2147483648)%Z.

(* ================================================================= *)
(** ** Buffers (library boundary: buffer@5.1.0 and typed arrays) *)

(** [Buffer.from(string)]: a fresh store of exactly the encoded bytes. *)
Definition Buffer_from (s : string) : Uint8Array :=
  mkU8 true (list_byte_of_string s) 0 (String.length s).

(** [Buffer.alloc(0)] *)
Definition Buffer_alloc0 : Uint8Array := mkU8 true [] 0 0.

(** The bytes a view shows. *)
Definition contents (b : Uint8Array) : list byte :=
  firstn (byteLength b) (skipn (byteOffset b) (arrayBuffer b)).

(** [b.slice(start, end)] with both arguments non-negative integers: a
    [Buffer] gives a view on the same store (after [~~] on both ends), a plain
    [Uint8Array] gives a copy. *)
Definition u8_slice (b : Uint8Array) (start end_ : Z) : Uint8Array :=
  let len := Z.of_nat (byteLength b) in
  if isBuffer b then
    let clamp i :=
      let i := to_int32 i in
      if (i <? 0)%Z then Z.max 0 (i + len) else Z.min i len in
    let s := clamp start in
    let e := Z.max s (clamp end_) in
    mkU8 true (arrayBuffer b) (byteOffset b + Z.to_nat s) (Z.to_nat (e - s))
  else
    let s := Z.min start len in
    let e := Z.max s (Z.min end_ len) in
    let count := Z.to_nat (e - s) in
    mkU8 false (firstn count (skipn (Z.to_nat s) (contents b))) 0 count.

(* ================================================================= *)
(** ** Errors *)

Inductive JsError :=
| ERR_INVALID_ARG_TYPE (name : string)
| ERR_SOCKET_ALREADY_BOUND
| ERR_SOCKET_BAD_PORT (port : Z)
| ERR_SOCKET_DGRAM_NOT_RUNNING
| HostFailure (code : string).   (* a rejection coming from a collaborator *)

Inductive Result (A : Type) :=
| Ok (a : A)
| Throw (e : JsError).
Arguments Ok {A} a.
Arguments Throw {A} e.

(* ================================================================= *)
(** ** Socket, tasks, world *)

Inductive BindState :=
| BIND_STATE_UNBOUND
| BIND_STATE_BINDING
| BIND_STATE_BOUND.

(** [new Spawn(socket, address, port)], [new Send(socket, list, port,
    address, callback)], [new Close(socket)].  All tasks of a world belong to
    its one socket. *)
Inductive Task :=
| Spawn (address port : JsVal)
| Send (list : list Uint8Array) (port : Z) (address callback : JsVal)
| Close.

Inductive Dns :=
| LibDns
| FromNodeLookup (lookup : JsVal).

Record Socket := mkSocket {
  _handle : option Handle;
  isIdle : bool;
  _bindState : BindState;
  _reuseAddr : bool;
  dns : Dns;
  workQueue : list Task;
  type : JsVal
}.

(** What the socket does to the outside, in order. *)
Inductive Event :=
| AddListener (name : string) (listener : JsVal) (once : bool)
| DnsResolve (address : JsVal)
| UdpCreate (host : option string) (port : option JsVal) (addressReuse : bool)
| HandleSend (h : Handle) (host : option string) (port : Z) (payload : list byte)
| HandleClose (h : Handle)
| HandleMessages (h : Handle)
| SetTimeout (ms : Z)
| Invoke (callback : JsVal) (error : option JsError)
| EmitListening (task : Task)
| EmitError (e : JsError)
| EmitMessage (data : list byte) (address : string) (family : string)
    (port : Z) (size : nat)
| EmitClose.

(** A suspended [perform]: the [await] it waits at, with the locals that are
    live across it.  [Settled None] is a resolved promise, [Settled (Some e)]
    a rejected one. *)
Inductive Perform :=
| SpawnResolve (address port : JsVal)
| SpawnCreate (address port : JsVal)
| SendResolve (h : option Handle) (list : list Uint8Array) (port : Z)
    (callback : JsVal)
| SendTransmit (h : Handle) (host : option string) (port : Z)
    (rest : list Uint8Array) (callback : JsVal)
| SendDrain (callback : JsVal)
| CloseAwait
| Settled (outcome : option JsError).

(** An activation of [awake] suspended at [await task.perform()]; [index] has
    been incremented already. *)
Record Frame := mkFrame {
  index : nat;
  current : Perform
}.

(** [enqueued] and [started] are ghost logs: every task handed to [schedule]
    and every task whose [perform] was called, in order. *)
Record World := mkWorld {
  socket : Socket;
  frames : list Frame;
  pumps : list Handle;
  trace : list Event;
  enqueued : list Task;
  started : list Task
}.

Definition with_socket (f : Socket -> Socket) (w : World) : World :=
  mkWorld (f (socket w)) (frames w) (pumps w) (trace w) (enqueued w) (started w).

Definition set_handle (h : option Handle) (s : Socket) : Socket :=
  mkSocket h (isIdle s) (_bindState s) (_reuseAddr s) (dns s) (workQueue s) (type s).

Definition set_isIdle (b : bool) (s : Socket) : Socket :=
  mkSocket (_handle s) b (_bindState s) (_reuseAddr s) (dns s) (workQueue s) (type s).

Definition set_bindState (b : BindState) (s : Socket) : Socket :=
  mkSocket (_handle s) (isIdle s) b (_reuseAddr s) (dns s) (workQueue s) (type s).

Definition set_workQueue (q : list Task) (s : Socket) : Socket :=
  mkSocket (_handle s) (isIdle s) (_bindState s) (_reuseAddr s) (dns s) q (type s).

Definition log (e : Event) (w : World) : World :=
  mkWorld (socket w) (frames w) (pumps w) (trace w ++ [e]) (enqueued w) (started w).

Definition set_frames (fs : list Frame) (w : World) : World :=
  mkWorld (socket w) fs (pumps w) (trace w) (enqueued w) (started w).

Definition set_pumps (ps : list Handle) (w : World) : World :=
  mkWorld (socket w) (frames w) ps (trace w) (enqueued w) (started w).

Definition note_enqueued (t : Task) (w : World) : World :=
  mkWorld (socket w) (frames w) (pumps w) (trace w) (enqueued w ++ [t]) (started w).

Definition note_started (t : Task) (w : World) : World :=
  mkWorld (socket w) (frames w) (pumps w) (trace w) (enqueued w) (started w ++ [t]).

(** Synchronous code: it may throw, and what it did before stays done. *)
Definition M (A : Type) : Type := World -> Result A * World.

Definition ret {A} (a : A) : M A := fun w => (Ok a, w).
Definition throw {A} (e : JsError) : M A := fun w => (Throw e, w).
Definition bindM {A B} (c : M A) (k : A -> M B) : M B :=
  fun w => match c w with
           | (Ok a, w') => k a w'
           | (Throw e, w') => (Throw e, w')
           end.
Definition lift {A} (r : Result A) : M A := fun w => (r, w).
Definition effect (f : World -> World) : M unit := fun w => (Ok tt, f w).
Definition this : M Socket := fun w => (Ok (socket w), w).

Declare Scope js_scope.
Delimit Scope js_scope with js.
Notation "x <- c ;; k" := (bindM c (fun x => k))
  (at level 61, c at next level, right associativity) : js_scope.
Notation "' p <- c ;; k" := (bindM c (fun x => let 'p := x in k))
  (at level 61, p pattern, c at next level, right associativity) : js_scope.
Notation "c ;; k" := (bindM c (fun _ => k))
  (at level 61, right associativity) : js_scope.

Local Open Scope js_scope.

(* ================================================================= *)
(** ** The three tasks *)

(** What a host promise settles with. *)
Inductive Settle :=
| Resolved (addresses : list string)   (* dns.resolve: [record.addresses] *)
| Created (h : Handle)                 (* UDPSocket.create *)
| Sent                                 (* handle.send *)
| Closed                               (* handle.close *)
| TimerFired                           (* setTimeout(resolve, 20) *)
| Rejected (e : JsError).

(** [port != undefined && port !== 0] *)
Definition has_port (port : JsVal) : bool :=
  match port with
  | VUndefined | VNull => false
  | VNum n => negb (n =? 0)%Z
  | _ => true
  end.

(** [family === 2 ? "udp6" : "udp4"] *)
Definition toNodeFamily (family : Z) : string :=
  if (family =? 2)%Z then "udp6" else "udp4".

(** [listen(socket, handle)] up to its first [await]: the message pump of
    [handle] is started. *)
Definition listen (h : Handle) (w : World) : World :=
  set_pumps (pumps w ++ [h]) (log (HandleMessages h) w).

(** [task.perform()] up to its first [await]. *)
Definition perform (t : Task) (w : World) : Perform * World :=
  match t with
  | Spawn address port =>
      (SpawnResolve address port, log (DnsResolve address) w)
  | Send list port address callback =>
      (SendResolve (_handle (socket w)) list port callback,
       log (DnsResolve address) w)
  | Close =>
      match _handle (socket w) with
      | None =>
          (* _healthCheck() throws, the catch block emits *)
          (Settled None, log (EmitError ERR_SOCKET_DGRAM_NOT_RUNNING) w)
      | Some handle =>
          (CloseAwait,
           log (HandleClose handle) (with_socket (set_handle None) w))
      end
  end.

(** The catch block of [Spawn.perform]. *)
Definition spawn_catch (e : JsError) (w : World) : Perform * World :=
  (Settled None,
   log (EmitError e) (with_socket (set_bindState BIND_STATE_UNBOUND) w)).

(** [Send.perform] from the head of its [for ... of list] loop to the next
    [await]: one more buffer goes out, or the loop is over and the callback
    part begins. *)
Definition transmit (h : Handle) (host : option string) (port : Z)
    (list : list Uint8Array) (callback : JsVal) (w : World) : Perform * World :=
  match list with
  | b :: rest =>
      (SendTransmit h host port rest callback,
       log (HandleSend h host port (arrayBuffer b)) w)
  | [] =>
      if truthy callback
      then (SendDrain callback, log (SetTimeout 20) w)
      else (Settled None, w)
  end.

(** A suspended [perform] goes on when its promise settles, up to the next
    [await] or to its end.  [None]: the outcome is not one of the promise
    awaited. *)
Definition resume (p : Perform) (o : Settle) (w : World)
  : option (Perform * World) :=
  match p, o with
  | SpawnResolve address port, Resolved addresses =>
      let host := hd_error addresses in
      let addressReuse := _reuseAddr (socket w) in
      let options :=
        if has_port port
        then UdpCreate host (Some port) addressReuse
        else UdpCreate host None addressReuse in
      Some (SpawnCreate address port, log options w)
  | SpawnResolve _ _, Rejected e => Some (spawn_catch e w)
  | SpawnCreate address port, Created h =>
      Some (Settled None,
            listen h (log (EmitListening (Spawn address port))
                       (with_socket (set_handle (Some h)) w)))
  | SpawnCreate _ _, Rejected e => Some (spawn_catch e w)
  | SendResolve h list port callback, Resolved addresses =>
      let host := hd_error addresses in
      match h with
      | Some h => Some (transmit h host port list callback w)
      | None => Some (Settled None, w)
      end
  | SendResolve _ _ _ _, Rejected e =>
      (* this await is outside the try block *)
      Some (Settled (Some e), w)
  | SendTransmit h host port rest callback, Sent =>
      Some (transmit h host port rest callback w)
  | SendTransmit _ _ _ _ callback, Rejected e =>
      Some (Settled None,
            if truthy callback then log (Invoke callback (Some e)) w else w)
  | SendDrain callback, TimerFired =>
      Some (Settled None, log (Invoke callback None) w)
  | CloseAwait, Closed => Some (Settled None, w)
  | CloseAwait, Rejected e => Some (Settled None, log (EmitError e) w)
  | _, _ => None
  end.

(* ================================================================= *)
(** ** The scheduler *)

(** The [while] loop of [awake] from its test to the next [await], or to the
    end of [awake]. *)
Definition drain (index : nat) (w : World) : World :=
  match nth_error (workQueue (socket w)) index with
  | Some task =>
      let '(p, w') := perform task (note_started task w) in
      set_frames (frames w' ++ [mkFrame (S index) p]) w'
  | None =>
      with_socket (set_isIdle true) (with_socket (set_workQueue []) w)
  end.

Definition awake (w : World) : World :=
  if isIdle (socket w)
  then drain 0 (with_socket (set_isIdle false) w)
  else w.

Definition push (task : Task) (s : Socket) : Socket :=
  set_workQueue (workQueue s ++ [task]) s.

Definition schedule (task : Task) : M unit :=
  effect (fun w => note_enqueued task (with_socket (push task) w)) ;;
  s <- this ;;
  if isIdle s then effect awake else ret tt.

(* ================================================================= *)
(** ** The public methods *)

Definition arg (args : list JsVal) (i : nat) : JsVal := nth i args VUndefined.

Definition wildcard (s : Socket) : JsVal :=
  if is_udp4 (type s) then VStr "0.0.0.0" else VStr "::".

Definition loopback (s : Socket) : JsVal :=
  if is_udp4 (type s) then VStr "127.0.0.1" else VStr "::1".

Definition bind (args : list JsVal) : M unit :=
  let port_ := arg args 0 in
  let address_ := arg args 1 in
  s <- this ;;
  match _bindState s with
  | BIND_STATE_UNBOUND =>
      effect (with_socket (set_bindState BIND_STATE_BINDING)) ;;
      (if is_function (last args VUndefined)
       then effect (log (AddListener "listening" (last args VUndefined) true))
       else ret tt) ;;
      let '(address, exclusive, port) :=
        if is_object port_
        then (js_or (get_prop port_ "address") (VStr EmptyString),
              truthy (get_prop port_ "exclusive"),
              get_prop port_ "port")
        else (if is_function address_ then VStr EmptyString else address_,
              false,
              port_) in
      let address := if truthy address then address else wildcard s in
      schedule (Spawn address port)
  | _ => throw ERR_SOCKET_ALREADY_BOUND
  end.

Definition close (callback : JsVal) : M unit :=
  (if is_function callback
   then effect (log (AddListener "close" callback false))
   else ret tt) ;;
  schedule Close.

(** An element of [VArr] that [fixBufferList] accepts. *)
Definition fixBuffer (buf : JsVal) : option Uint8Array :=
  match buf with
  | VStr s => Some (Buffer_from s)
  | VBytes b => Some b
  | _ => None
  end.

Fixpoint fixBufferList (l : list JsVal) : option (list Uint8Array) :=
  match l with
  | [] => Some []
  | buf :: rest =>
      match fixBuffer buf with
      | None => None
      | Some b =>
          match fixBufferList rest with
          | None => None
          | Some newlist => Some (b :: newlist)
          end
      end
  end.

Section Send.
Context {E : Engine}.

Definition sliceBuffer (source offset length : JsVal) : Result Uint8Array :=
  match (match source with
         | VStr s => Ok (Buffer_from s)
         | VBytes b => Ok b
         | _ => Throw (ERR_INVALID_ARG_TYPE "buffer")
         end) with
  | Ok buffer =>
      let start := to_uint32 offset in
      let end_ := (start + to_uint32 length)%Z in
      Ok (u8_slice buffer start end_)
  | Throw e => Throw e
  end.

(** Does [send] read its arguments as (offset, length, port, address,
    callback)? *)
Definition send_long (args : list JsVal) : bool :=
  truthy (arg args 3)
  || (truthy (arg args 2) && negb (is_function (arg args 2))).

(** The first [if] of [send]: (buffer, port, address, callback) once the
    shape of the call is known. *)
Definition send_shape (buffer : JsVal) (args : list JsVal)
  : Result (JsVal * JsVal * JsVal * JsVal) :=
  if send_long args then
    match sliceBuffer buffer (arg args 0) (arg args 1) with
    | Ok b => Ok (VBytes b, arg args 2, arg args 3, arg args 4)
    | Throw e => Throw e
    end
  else Ok (buffer, arg args 0, arg args 1, arg args 2).

(** The second [if] of [send]: the list of buffers. *)
Definition send_list (buffer : JsVal) : Result (list Uint8Array) :=
  match buffer with
  | VArr l =>
      match fixBufferList l with
      | Some list => Ok list
      | None => Throw (ERR_INVALID_ARG_TYPE "buffer list arguments")
      end
  | VStr s => Ok [Buffer_from s]
  | VBytes b => Ok [b]
  | _ => Throw (ERR_INVALID_ARG_TYPE "buffer")
  end.

Definition send (buffer : JsVal) (args : list JsVal) : M unit :=
  '(buffer, port, address, callback) <- lift (send_shape buffer args) ;;
  list <- lift (send_list buffer) ;;
  let port := to_uint32 port in
  if ((port =? 0) || (65535 <? port))%Z then throw (ERR_SOCKET_BAD_PORT port)
  else
    let callback := if is_function callback then callback else VUndefined in
    '(callback, address) <-
      (if is_function address then ret (address, VUndefined)
       else if truthy address && negb (is_string address)
            then throw (ERR_INVALID_ARG_TYPE "address")
            else ret (callback, address)) ;;
    s <- this ;;
    match _bindState s with
    | BIND_STATE_UNBOUND =>
        bind [VObj [("port", VNum 0); ("exclusive", VBool true)]; VNull]
    | _ => ret tt
    end ;;
    let list := match list with [] => [Buffer_alloc0] | _ => list end in
    let host := js_or address (loopback s) in
    schedule (Send list port host callback).
End Send.

(** [new Socket(type, listener)] *)
Definition new_Socket (type listener : JsVal) : World :=
  let '(type, dns, reuseAddr) :=
    if is_object type
    then (get_prop type "type",
          if truthy (get_prop type "lookup")
          then FromNodeLookup (get_prop type "lookup") else LibDns,
          truthy (get_prop type "reuseAddr"))
    else (type, LibDns, false) in
  mkWorld
    (mkSocket None true BIND_STATE_UNBOUND reuseAddr dns [] type)
    [] []
    (if is_function listener then [AddListener "message" listener false] else [])
    [] [].

Definition createSocket (options callback : JsVal) : World :=
  new_Socket options callback.

(* ================================================================= *)
(** ** The transition system *)

(** What can happen to a socket: a method is called, the promise the running
    task waits for settles, the microtask that resumes [awake] after
    [await task.perform()] runs, the pump of a handle gets a datagram or the
    end of its stream.  Frames are named by their position. *)
Inductive Input :=
| CallBind (args : list JsVal)
| CallSend (buffer : JsVal) (args : list JsVal)
| CallClose (callback : JsVal)
| HostSettle (n : nat) (o : Settle)
| LoopResume (n : nat)
| PumpMessage (h : Handle) (data : list byte) (address : string)
    (family port : Z)
| PumpEnd (h : Handle).

Fixpoint replace_nth {A} (n : nat) (x : A) (l : list A) : list A :=
  match l, n with
  | [], _ => []
  | _ :: rest, O => x :: rest
  | y :: rest, S n => y :: replace_nth n x rest
  end.

Fixpoint remove_nth {A} (n : nat) (l : list A) : list A :=
  match l, n with
  | [], _ => []
  | _ :: rest, O => rest
  | y :: rest, S n => y :: remove_nth n rest
  end.

Section Run.
Context {E : Engine}.

(** [None]: the input does not apply to the state. *)
Definition step (w : World) (i : Input) : option World :=
  match i with
  | CallBind args => Some (snd (bind args w))
  | CallSend buffer args => Some (snd (send buffer args w))
  | CallClose callback => Some (snd (close callback w))
  | HostSettle n o =>
      match nth_error (frames w) n with
      | Some f =>
          match resume (current f) o w with
          | Some (p, w') =>
              Some (set_frames
                      (replace_nth n (mkFrame (index f) p) (frames w')) w')
          | None => None
          end
      | None => None
      end
  | LoopResume n =>
      match nth_error (frames w) n with
      | Some f =>
          match current f with
          | Settled None =>
              Some (drain (index f) (set_frames (remove_nth n (frames w)) w))
          | Settled (Some _) =>
              (* awake rejects: nobody sets isIdle back *)
              Some (set_frames (remove_nth n (frames w)) w)
          | _ => None
          end
      | None => None
      end
  | PumpMessage h data address family port =>
      if existsb (Nat.eqb h) (pumps w)
      then Some (log (EmitMessage data address (toNodeFamily family) port
                        (List.length data)) w)
      else None
  | PumpEnd h =>
      if existsb (Nat.eqb h) (pumps w)
      then Some (log EmitClose
                   (set_pumps (List.remove Nat.eq_dec h (pumps w)) w))
      else None
  end.

(** A history; inputs that do not apply are skipped. *)
Fixpoint run (w : World) (inputs : list Input) : World :=
  match inputs with
  | [] => w
  | i :: rest =>
      match step w i with
      | Some w' => run w' rest
      | None => run w rest
      end
  end.
End Run.

(** An engine for running examples: no string or object is a number. *)
Definition plain_engine : Engine := {| ToNumber_other := fun _ => None |}.

(* ================================================================= *)
(** ** Observations *)

Definition is_spawn (t : Task) : bool :=
  match t with Spawn _ _ => true | _ => false end.

Definition count_spawn (l : list Task) : nat := List.length (filter is_spawn l).



Definition spawning (p : Perform) : nat :=
  match p with SpawnResolve _ _ | SpawnCreate _ _ => 1 | _ => 0 end.

(** The binds the running loop still has to finish. *)
Definition unfinished_spawns (w : World) : nat :=
  match frames w with
  | [] => 0
  | f :: _ =>
      spawning (current f) + count_spawn (skipn (index f) (workQueue (socket w)))
  end.

Definition is_listening (e : Event) : bool :=
  match e with EmitListening _ => true | _ => false end.

(** Has a [Spawn] succeeded? *)
Definition has_bound (w : World) : bool := existsb is_listening (trace w).

(* ================================================================= *)
(** ** Invariant of the reachable worlds *)

Record Inv (w : World) : Prop := {
  inv_frames : List.length (frames w) <= 1;
  inv_idle :
    isIdle (socket w) = true -> frames w = [] /\ workQueue (socket w) = [];
  inv_fifo :
    exists done k,
      enqueued w = done ++ workQueue (socket w) /\
      started w = done ++ firstn k (workQueue (socket w)) /\
      k <= List.length (workQueue (socket w)) /\
      (forall f, In f (frames w) -> index f = k);
  inv_never_bound : _bindState (socket w) <> BIND_STATE_BOUND;
  inv_one_spawn : unfinished_spawns w <= 1;
  inv_unbound :
    _bindState (socket w) = BIND_STATE_UNBOUND -> unfinished_spawns w = 0;
  inv_bound :
    has_bound w = true ->
    unfinished_spawns w = 0 /\ _bindState (socket w) = BIND_STATE_BINDING;
  inv_handle : has_bound w = false -> _handle (socket w) = None
}.

(** A [Spawn] is only scheduled by [bind], which has just left UNBOUND. *)
Definition may_schedule (t : Task) (w : World) : Prop :=
  is_spawn t = true ->
  unfinished_spawns w = 0 /\ has_bound w = false /\
  _bindState (socket w) = BIND_STATE_BINDING.

(** [bind] between its test of [_bindState] and its call of [schedule]. *)
Definition bind_prologue (args : list JsVal) (w : World) : World :=
  let w1 := with_socket (set_bindState BIND_STATE_BINDING) w in
  if is_function (last args VUndefined)
  then log (AddListener "listening" (last args VUndefined) true) w1
  else w1.

(** The buffer arguments [send] accepts: a string, a byte array, or a list
    of those. *)
Definition is_buffer_like (v : JsVal) : bool :=
  match v with VStr _ | VBytes _ => true | _ => false end.


(** The bind [send] makes for an unbound socket. *)
Definition auto_bind : list JsVal :=
  [VObj [("port", VNum 0); ("exclusive", VBool true)]; VNull].

(** The call [send(["a", "b"], port, address, callback)] and the task it
    schedules. *)
Definition two_strings : JsVal := VArr [VStr "a"; VStr "b"].

Definition two_args (port : Z) (address : string) (cb : FunId) : list JsVal :=
  [VNum port; VStr address; VFun cb].

Definition two_task (port : Z) (address : string) (cb : FunId) : Task :=
  Send [Buffer_from "a"; Buffer_from "b"] port (VStr address) (VFun cb).

(* ================================================================= *)
(** ** The methods that go straight to the handle *)

(** [_healthCheck()] *)
Definition _healthCheck (s : Socket) : Result Handle :=
  match _handle s with
  | None => Throw ERR_SOCKET_DGRAM_NOT_RUNNING
  | Some handle => Ok handle
  end.

(** The synchronous methods of a handle, with their arguments. *)
Inductive HandleCall :=
| SetMulticastLoopback (flag : JsVal)
| SetMulticastInterface (interfaceAddress : JsVal)
| JoinMulticast (multicastAddress interfaceAddress : JsVal)
| LeaveMulticast (multicastAddress interfaceAddress : JsVal).

(** What these methods throw: the errors of [send] and [bind], and two
    more. *)
Inductive MethodError :=
| Plain (e : JsError)
| ERR_MISSING_ARGS (params : list string)
| SystemError (message code syscall : string).

(** [ex.errno] *)
Definition errno (e : MethodError) : option string :=
  match e with SystemError _ code _ => Some code | _ => None end.

(** [errnoException(err, syscall, original)]; [err] is known by its
    message. *)
Definition errnoException (err_message syscall : string)
    (original : option string) : MethodError :=
  let code := err_message in
  let message :=
    match original with
    | Some o =>
        if String.eqb o EmptyString
        then (syscall ++ " " ++ code)%string
        else (syscall ++ " " ++ code ++ " " ++ o)%string
    | None => (syscall ++ " " ++ code)%string
    end in
  SystemError message code syscall.

(** The host behind a handle method: [Some m] when the call throws an error
    with message [m]. *)
Definition HandleHost := Handle -> HandleCall -> option string.

Inductive Outcome (A : Type) :=
| Returns (a : A)
| Raises (e : MethodError).
Arguments Returns {A} a.
Arguments Raises {A} e.

(** A handle method: the calls made to the host, then the outcome.  None of
    them assigns a field of the socket. *)
Definition Direct (A : Type) : Type := list (Handle * HandleCall) * Outcome A.

(** [try { socket.method(...) } catch (error) { throw errnoException(error,
    syscall) }] *)
Definition guarded (host : HandleHost) (socket : Handle) (call : HandleCall)
    (syscall : string) : Direct unit :=
  match host socket call with
  | None => ([(socket, call)], Returns tt)
  | Some m => ([(socket, call)], Raises (errnoException m syscall None))
  end.

Definition setMulticastLoopback (host : HandleHost) (flag : JsVal) (s : Socket)
  : Direct unit :=
  match _healthCheck s with
  | Throw e => ([], Raises (Plain e))
  | Ok socket =>
      guarded host socket (SetMulticastLoopback flag) "setMulticastLoopback"
  end.

Definition setMulticastInterface (host : HandleHost) (interfaceAddress : JsVal)
    (s : Socket) : Direct unit :=
  match _healthCheck s with
  | Throw e => ([], Raises (Plain e))
  | Ok socket =>
      if negb (is_string interfaceAddress)
      then ([], Raises (Plain (ERR_INVALID_ARG_TYPE "interfaceAddress")))
      else guarded host socket (SetMulticastInterface interfaceAddress)
             "setMulticastInterface"
  end.

Definition setMulticastTTL (ttl : JsVal) (s : Socket) : Direct unit :=
  ([], Returns tt).

Definition addMembership (host : HandleHost)
    (multicastAddress interfaceAddress : JsVal) (s : Socket) : Direct unit :=
  match _healthCheck s with
  | Throw e => ([], Raises (Plain e))
  | Ok socket =>
      if negb (truthy multicastAddress)
      then ([], Raises (ERR_MISSING_ARGS ["multicastAddress"]))
      else guarded host socket (JoinMulticast multicastAddress interfaceAddress)
             "addMembership"
  end.

Definition dropMembership (host : HandleHost)
    (multicastAddress interfaceAddress : JsVal) (s : Socket) : Direct unit :=
  match _healthCheck s with
  | Throw e => ([], Raises (Plain e))
  | Ok socket =>
      if negb (truthy multicastAddress)
      then ([], Raises (ERR_MISSING_ARGS ["multicastAddress"]))
      else guarded host socket
             (LeaveMulticast multicastAddress (js_or interfaceAddress VUndefined))
             "dropMembership"
  end.

(** The [address] property of a handle and what [address()] returns. *)
Record SocketAddress := mkSocketAddress {
  sa_address : JsVal;
  sa_port : JsVal;
  sa_family : Z
}.

Record AddressInfo := mkAddressInfo {
  ai_address : JsVal;
  ai_host : JsVal;
  ai_port : JsVal;
  ai_family : string
}.

Definition address (bound : Handle -> SocketAddress) (s : Socket)
  : Result AddressInfo :=
  match _healthCheck s with
  | Throw e => Throw e
  | Ok handle =>
      let a := bound handle in
      Ok (mkAddressInfo (sa_address a) (sa_address a) (sa_port a)
            (toNodeFamily (sa_family a)))
  end.

(* ================================================================= *)
(** ** Well-formed traces *)

(** Events that need a handle or come from its pump. *)
Definition after_bind (e : Event) : bool :=
  match e with
  | HandleSend _ _ _ _ | HandleClose _ | HandleMessages _
  | EmitMessage _ _ _ _ _ | EmitClose => true
  | _ => false
  end.

(** May [e] happen on a socket built with [reuse], given whether "listening"
    has been emitted? *)
Definition event_ok (reuse bound : bool) (e : Event) : bool :=
  match e with
  | EmitListening _ => negb bound
  | UdpCreate _ _ addressReuse => Bool.eqb addressReuse reuse && negb bound
  | EmitMessage data _ family _ size =>
      bound && (String.eqb family "udp4" || String.eqb family "udp6")
      && Nat.eqb size (List.length data)
  | HandleSend _ _ _ _ | HandleClose _ | HandleMessages _ | EmitClose => bound
  | _ => true
  end.

Fixpoint well_formed (reuse bound : bool) (l : list Event) : bool :=
  match l with
  | [] => true
  | e :: rest =>
      event_ok reuse bound e && well_formed reuse (bound || is_listening e) rest
  end.

(** Does the suspended task hold a handle it took from the socket? *)
Definition holds_handle (p : Perform) : bool :=
  match p with
  | SendResolve (Some _) _ _ _ | SendTransmit _ _ _ _ _ => true
  | _ => false
  end.

Record TraceInv (w : World) : Prop := {
  ti_trace : well_formed (_reuseAddr (socket w)) false (trace w) = true;
  ti_frames :
    forall f, In f (frames w) -> holds_handle (current f) = true ->
              has_bound w = true;
  ti_pumps : forall h, In h (pumps w) -> has_bound w = true;
  ti_handle : _handle (socket w) <> None -> has_bound w = true
}.

Definition count_listening (l : list Event) : nat :=
  List.length (filter is_listening l).

(** [!!options.reuseAddr] for the argument of the constructor. *)
Definition reuse_option (type : JsVal) : bool :=
  if is_object type then truthy (get_prop type "reuseAddr") else false.

(** [options.type], or the type string itself. *)
Definition type_option (type : JsVal) : JsVal :=
  if is_object type then get_prop type "type" else type.

(** What [send] leaves in a [Send] task. *)
Definition normal_send (t : Task) : Prop :=
  match t with
  | Send bufs port host callback =>
      bufs <> [] /\ (1 <= port <= 65535)%Z /\
      (exists s, host = VStr s /\ s <> EmptyString) /\
      (callback = VUndefined \/ exists f, callback = VFun f)
  | _ => False
  end.

(** The loop of [awake] is gone and [isIdle] was left false. *)
Definition wedged (w : World) : Prop :=
  frames w = [] /\ isIdle (socket w) = false.

(** What the constructor fixes: [_reuseAddr], [type], [dns]. *)
Definition static (w : World) : bool * JsVal * Dns :=
  (_reuseAddr (socket w), type (socket w), dns (socket w)).

(* ================================================================= *)
(** ** Lemmas *)

(** *** Lists *)

Lemma skipn_snoc {A} (k : nat) (q : list A) (t : A) :
  k <= List.length q -> skipn k (q ++ [t]) = skipn k q ++ [t].
Proof.
  intros H. rewrite skipn_app.
  replace (k - List.length q) with 0 by lia. reflexivity.
Qed.

Lemma firstn_snoc {A} (k : nat) (q : list A) (t : A) :
  k <= List.length q -> firstn k (q ++ [t]) = firstn k q.
Proof.
  intros H. rewrite firstn_app.
  replace (k - List.length q) with 0 by lia. simpl. apply app_nil_r.
Qed.

Lemma skipn_nth_error {A} (q : list A) : forall k t,
  nth_error q k = Some t -> skipn k q = t :: skipn (S k) q.
Proof.
  induction q as [|x q IH]; intros [|k] t H; simpl in *; try discriminate.
  - congruence.
  - apply IH. exact H.
Qed.

Lemma firstn_nth_error {A} (q : list A) : forall k t,
  nth_error q k = Some t -> firstn (S k) q = firstn k q ++ [t].
Proof.
  induction q as [|x q IH]; intros [|k] t H; simpl in *; try discriminate.
  - congruence.
  - f_equal. apply IH. exact H.
Qed.

Lemma count_spawn_app (l1 l2 : list Task) :
  count_spawn (l1 ++ l2) = count_spawn l1 + count_spawn l2.
Proof. unfold count_spawn. rewrite filter_app, length_app. reflexivity. Qed.

Lemma has_bound_log (e : Event) (w : World) :
  has_bound (log e w) = has_bound w || is_listening e.
Proof.
  unfold has_bound, log. simpl. rewrite existsb_app. simpl.
  rewrite orb_false_r. reflexivity.
Qed.

(** *** What [perform] touches *)

Lemma perform_spawning (t : Task) (w : World) :
  spawning (fst (perform t w)) = if is_spawn t then 1 else 0.
Proof. destruct t; simpl; auto. destruct (_handle (socket w)); auto. Qed.

Lemma perform_frame (t : Task) (w : World) :
  let w' := snd (perform t w) in
  frames w' = frames w /\ pumps w' = pumps w /\
  enqueued w' = enqueued w /\ started w' = started w /\
  has_bound w' = has_bound w /\
  isIdle (socket w') = isIdle (socket w) /\
  _bindState (socket w') = _bindState (socket w) /\
  workQueue (socket w') = workQueue (socket w) /\
  (_handle (socket w') = _handle (socket w) \/ _handle (socket w') = None).
Proof.
  destruct t; simpl; try rewrite has_bound_log; simpl;
    try rewrite orb_false_r; try tauto.
  destruct (_handle (socket w)) eqn:Hh; simpl; rewrite has_bound_log; simpl;
    rewrite orb_false_r; unfold has_bound; simpl; tauto.
Qed.

(** *** The scheduler keeps the invariant *)

Lemma Inv_drain (k : nat) (w : World) :
  frames w = [] ->
  isIdle (socket w) = false ->
  Inv (set_frames [mkFrame k (Settled None)] w) ->
  Inv (drain k w).
Proof.
  intros Hfr Hidle [_ _ (done & k' & Hen & Hst & Hk & Hix) Hnb Hone Hun Hbd Hh].
  unfold unfinished_spawns in *. simpl in *.
  assert (k' = k) by (symmetry; apply (Hix (mkFrame k (Settled None))); auto).
  subst k'. clear Hix.
  unfold drain.
  destruct (nth_error (workQueue (socket w)) k) as [t|] eqn:Hnth.
  - pose proof (perform_frame t (note_started t w)) as Hp.
    pose proof (perform_spawning t (note_started t w)) as Hsp.
    destruct (perform t (note_started t w)) as [p w'].
    simpl in Hp, Hsp.
    destruct Hp as (Hf & _ & He & Hs & Hb & Hi & Hbs & Hq & Hhd).
    rewrite (skipn_nth_error _ _ _ Hnth) in Hone, Hun, Hbd.
    change (count_spawn (t :: ?l)) with (count_spawn ([t] ++ l)) in *.
    rewrite count_spawn_app in *.
    assert (Ht : count_spawn [t] = spawning p)
      by (rewrite Hsp; unfold count_spawn; simpl; destruct (is_spawn t); auto).
    rewrite Ht in *.
    assert (Hlen : S k <= List.length (workQueue (socket w)))
      by (apply Nat.le_succ_l, nth_error_Some; congruence).
    constructor; unfold unfinished_spawns, has_bound in *; simpl;
      rewrite ?Hf, ?Hfr, ?Hq, ?Hbs, ?Hi, ?He, ?Hs; simpl; auto.
    + congruence.
    + exists done, (S k). repeat split; auto.
      * rewrite (firstn_nth_error _ _ _ Hnth), Hst, <- app_assoc. reflexivity.
      * intros f [<-|[]]. reflexivity.
    + rewrite Hb. exact Hbd.
    + rewrite Hb. intros H. destruct Hhd as [->| ->]; auto.
  - apply nth_error_None in Hnth.
    assert (k = List.length (workQueue (socket w))) by lia. subst k.
    rewrite firstn_all in Hst.
    constructor; unfold unfinished_spawns, has_bound in *; simpl;
      rewrite ?Hfr; simpl; auto.
    + exists (done ++ workQueue (socket w)), 0. simpl.
      rewrite !app_nil_r. repeat split; auto. intros f [].
    + rewrite skipn_all in Hbd. exact Hbd.
Qed.

Lemma schedule_busy (t : Task) (w : World) :
  isIdle (socket w) = false ->
  schedule t w = (Ok tt, note_enqueued t (with_socket (push t) w)).
Proof. intros H. unfold schedule, bindM, effect, this. simpl. rewrite H. reflexivity. Qed.

Lemma schedule_idle (t : Task) (w : World) :
  isIdle (socket w) = true ->
  schedule t w =
  (Ok tt, drain 0 (with_socket (set_isIdle false)
                     (note_enqueued t (with_socket (push t) w)))).
Proof.
  intros H. unfold schedule, bindM, effect, this, awake. simpl.
  rewrite H. simpl. rewrite H. reflexivity.
Qed.

Lemma Inv_schedule (t : Task) (w : World) :
  Inv w -> may_schedule t w -> Inv (snd (schedule t w)).
Proof.
  intros [Hfr Hidle (done & k & Hen & Hst & Hk & Hix) Hnb Hone Hun Hbd Hh] Hmay.
  destruct (isIdle (socket w)) eqn:Hi.
  - rewrite schedule_idle by exact Hi. simpl.
    destruct (Hidle eq_refl) as [Hf Hq].
    apply Inv_drain; simpl; auto.
    rewrite Hq in *. simpl in *. rewrite app_nil_r in Hen.
    assert (k = 0) by lia. subst k. simpl in Hst. rewrite app_nil_r in Hst.
    unfold unfinished_spawns in *. rewrite Hf in *.
    constructor; unfold unfinished_spawns, has_bound in *; simpl;
      rewrite ?Hq; simpl; auto.
    + discriminate.
    + exists done, 0. simpl. rewrite app_nil_r. repeat split; auto; try lia.
      * rewrite Hen. reflexivity.
      * intros f [<-|[]]. reflexivity.
    + unfold count_spawn. simpl. destruct (is_spawn t); simpl; lia.
    + intros Hu. unfold count_spawn. simpl. destruct (is_spawn t) eqn:Ht; auto.
      destruct (Hmay Ht) as (_ & _ & Hb). congruence.
    + intros Hb. split; [|apply Hbd; exact Hb].
      unfold count_spawn. simpl. destruct (is_spawn t) eqn:Ht; auto.
      destruct (Hmay Ht) as (_ & Hb' & _). unfold has_bound in Hb'. congruence.
  - rewrite schedule_busy by exact Hi. simpl.
    assert (Hu : unfinished_spawns (note_enqueued t (with_socket (push t) w)) =
                 unfinished_spawns w + match frames w with [] => 0 | _ => if is_spawn t then 1 else 0 end).
    { unfold unfinished_spawns. simpl. destruct (frames w) as [|f fs] eqn:Hf; auto.
      rewrite skipn_snoc, count_spawn_app.
      - unfold count_spawn at 2. simpl. destruct (is_spawn t); simpl; lia.
      - rewrite (Hix f) by (left; reflexivity). exact Hk. }
    constructor; rewrite ?Hu; unfold has_bound in *; simpl; auto.
    + rewrite Hi. discriminate.
    + exists done, k. rewrite firstn_snoc by exact Hk. rewrite length_app. simpl.
      repeat split; auto; try lia. rewrite Hen, <- app_assoc. reflexivity.
    + destruct (frames w); [lia|]. destruct (is_spawn t) eqn:Ht; [|lia].
      destruct (Hmay Ht) as (-> & _). lia.
    + intros Hb. destruct (frames w); [rewrite Hun by exact Hb; lia|].
      destruct (is_spawn t) eqn:Ht; [|rewrite Hun by exact Hb; lia].
      destruct (Hmay Ht) as (_ & _ & ?). congruence.
    + intros Hb. destruct (Hbd Hb) as [H0 Hs]. split; auto.
      destruct (frames w); [lia|]. destruct (is_spawn t) eqn:Ht; [|lia].
      destruct (Hmay Ht) as (_ & Hb' & _). unfold has_bound in Hb'. congruence.
Qed.

(** *** The methods keep the invariant *)

Lemma schedule_ok (t : Task) (w : World) : fst (schedule t w) = Ok tt.
Proof.
  destruct (isIdle (socket w)) eqn:H;
    [rewrite schedule_idle | rewrite schedule_busy]; auto.
Qed.

Lemma Inv_log (e : Event) (w : World) :
  is_listening e = false -> Inv w -> Inv (log e w).
Proof.
  intros He [H1 H2 H3 H4 H5 H6 H7 H8].
  constructor; try rewrite has_bound_log, He, orb_false_r; auto.
Qed.

Lemma bind_unbound (args : list JsVal) (w : World) :
  _bindState (socket w) = BIND_STATE_UNBOUND ->
  exists address port,
    bind args w = schedule (Spawn address port) (bind_prologue args w).
Proof.
  intros H. unfold bind, bind_prologue, bindM, this, effect. simpl. rewrite H.
  destruct (is_function (last args VUndefined)); simpl;
    destruct (is_object (arg args 0)); simpl; eauto.
Qed.

Lemma bind_bound (args : list JsVal) (w : World) :
  _bindState (socket w) <> BIND_STATE_UNBOUND ->
  bind args w = (Throw ERR_SOCKET_ALREADY_BOUND, w).
Proof.
  intros H. unfold bind, bindM, this. simpl.
  destruct (_bindState (socket w)); auto. contradiction.
Qed.

Lemma bind_prologue_state (args : list JsVal) (w : World) :
  _bindState (socket (bind_prologue args w)) = BIND_STATE_BINDING /\
  has_bound (bind_prologue args w) = has_bound w /\
  unfinished_spawns (bind_prologue args w) = unfinished_spawns w.
Proof.
  unfold bind_prologue.
  destruct (is_function (last args VUndefined)); simpl;
    rewrite ?has_bound_log, ?orb_false_r; auto.
Qed.

Lemma Inv_bind_prologue (args : list JsVal) (w : World) :
  _bindState (socket w) = BIND_STATE_UNBOUND ->
  Inv w -> Inv (bind_prologue args w).
Proof.
  intros Hu HI.
  assert (Hb : has_bound w = false).
  { destruct (has_bound w) eqn:Hb; auto.
    destruct (inv_bound w HI Hb) as [_ ?]. congruence. }
  pose proof (inv_unbound w HI Hu) as H0.
  assert (Inv (with_socket (set_bindState BIND_STATE_BINDING) w)).
  { destruct HI as [H1 H2 H3 H4 H5 H6 H7 H8].
    constructor; simpl; auto; try discriminate;
      unfold has_bound in *; simpl; congruence. }
  unfold bind_prologue.
  destruct (is_function (last args VUndefined)); auto using Inv_log.
Qed.

Lemma Inv_bind (args : list JsVal) (w : World) :
  Inv w -> Inv (snd (bind args w)).
Proof.
  intros HI.
  destruct (_bindState (socket w)) eqn:Hs;
    try (rewrite bind_bound by congruence; exact HI).
  destruct (bind_unbound args w Hs) as (address & port & ->).
  apply Inv_schedule; [apply Inv_bind_prologue; auto|].
  intros _. destruct (bind_prologue_state args w) as (H1 & H2 & H3).
  rewrite H1, H2, H3. repeat split.
  - apply inv_unbound; auto.
  - destruct (has_bound w) eqn:Hb; auto.
    destruct (inv_bound w HI Hb) as [_ ?]. congruence.
Qed.

Lemma Inv_close (callback : JsVal) (w : World) :
  Inv w -> Inv (snd (close callback w)).
Proof.
  intros HI. unfold close, bindM, effect, ret.
  destruct (is_function callback); simpl.
  - apply Inv_schedule; [apply Inv_log; auto | discriminate].
  - apply Inv_schedule; [auto | discriminate].
Qed.

Section SendInv.
Context {E : Engine}.

(** [send] throws before it has done anything, or it binds if the socket is
    UNBOUND and schedules one [Send]. *)
Lemma send_cases (buffer : JsVal) (args : list JsVal) (w : World) :
  (exists e, send buffer args w = (Throw e, w)) \/
  (exists list port host callback,
      send buffer args w =
      schedule (Send list port host callback)
        (match _bindState (socket w) with
         | BIND_STATE_UNBOUND =>
             snd (bind [VObj [("port", VNum 0); ("exclusive", VBool true)];
                        VNull] w)
         | _ => w
         end)).
Proof.
  unfold send, bindM, lift.
  destruct (send_shape buffer args) as [[[[b p] a] c]|e]; [|eauto].
  destruct (send_list b) as [l|e]; [|eauto].
  destruct ((to_uint32 p =? 0)%Z || (65535 <? to_uint32 p)%Z);
    [unfold throw; eauto|].
  destruct (is_function a); simpl.
  - right. destruct (_bindState (socket w)) eqn:Hs; simpl; eauto.
    destruct (bind_unbound
                [VObj [("port", VNum 0); ("exclusive", VBool true)]; VNull]
                w Hs) as (ad & po & Hb).
    rewrite Hb.
    destruct (schedule (Spawn ad po) _) as [[[]|e] w'] eqn:Hsch; eauto.
    pose proof (schedule_ok (Spawn ad po) (bind_prologue
      [VObj [("port", VNum 0); ("exclusive", VBool true)]; VNull] w)) as Hok.
    rewrite Hsch in Hok. discriminate.
  - destruct (truthy a && negb (is_string a)); simpl; [unfold throw; eauto|].
    right. destruct (_bindState (socket w)) eqn:Hs; simpl; eauto.
    destruct (bind_unbound
                [VObj [("port", VNum 0); ("exclusive", VBool true)]; VNull]
                w Hs) as (ad & po & Hb).
    rewrite Hb.
    destruct (schedule (Spawn ad po) _) as [[[]|e] w'] eqn:Hsch; eauto.
    pose proof (schedule_ok (Spawn ad po) (bind_prologue
      [VObj [("port", VNum 0); ("exclusive", VBool true)]; VNull] w)) as Hok.
    rewrite Hsch in Hok. discriminate.
Qed.

Lemma Inv_send (buffer : JsVal) (args : list JsVal) (w : World) :
  Inv w -> Inv (snd (send buffer args w)).
Proof.
  intros HI.
  destruct (send_cases buffer args w) as [(e & ->)|(l & p & h & c & ->)]; auto.
  apply Inv_schedule; [|discriminate].
  destruct (_bindState (socket w)); auto using Inv_bind.
Qed.
End SendInv.

(** *** The tasks keep the invariant *)

Lemma binding_of_not_unbound (s : Socket) :
  _bindState s <> BIND_STATE_BOUND ->
  _bindState s <> BIND_STATE_UNBOUND ->
  _bindState s = BIND_STATE_BINDING.
Proof. destruct (_bindState s); congruence. Qed.

Lemma transmit_frame h host port l callback (w : World) :
  let w' := snd (transmit h host port l callback w) in
  socket w' = socket w /\ frames w' = frames w /\
  enqueued w' = enqueued w /\ started w' = started w /\
  has_bound w' = has_bound w /\
  spawning (fst (transmit h host port l callback w)) = 0.
Proof.
  unfold transmit. destruct l as [|b rest]; [destruct (truthy callback)|];
    simpl; rewrite ?has_bound_log, ?orb_false_r; auto 10.
Qed.

Lemma Inv_same (w w' : World) (k : nat) (p p' : Perform) :
  frames w = [mkFrame k p] ->
  socket w' = socket w -> enqueued w' = enqueued w -> started w' = started w ->
  has_bound w' = has_bound w ->
  spawning p' = spawning p ->
  Inv w -> Inv (set_frames [mkFrame k p'] w').
Proof.
  intros Hfr Hs He Hst Hb Hsp [H1 H2 (done & k' & H3) H4 H5 H6 H7 H8].
  unfold unfinished_spawns, has_bound in *. rewrite Hfr in *. simpl in *.
  constructor; unfold unfinished_spawns, has_bound; simpl;
    rewrite ?Hs, ?He, ?Hst, ?Hb, ?Hsp; auto.
  - intros Hi. destruct (H2 Hi) as [? _]. discriminate.
  - exists done, k'. destruct H3 as (? & ? & ? & Hix). repeat split; auto.
    intros f [<-|[]]. apply (Hix (mkFrame k p)). auto.
Qed.

Lemma Inv_spawn_catch (w : World) (k : nat) (p : Perform) (e : JsError) :
  Inv w -> frames w = [mkFrame k p] -> spawning p = 1 ->
  Inv (set_frames [mkFrame k (Settled None)] (snd (spawn_catch e w))).
Proof.
  intros [H1 H2 (done & k' & H3) H4 H5 H6 H7 H8] Hfr Hsp.
  unfold unfinished_spawns, has_bound in *. rewrite Hfr in *. simpl in *.
  rewrite Hsp in *.
  constructor; unfold unfinished_spawns, has_bound; simpl;
    rewrite ?existsb_app; simpl; rewrite ?orb_false_r; auto; try lia;
    try discriminate.
  - intros Hi. destruct (H2 Hi) as [? _]. discriminate.
  - exists done, k'. destruct H3 as (? & ? & ? & Hix). repeat split; auto.
    intros f [<-|[]]. apply (Hix (mkFrame k p)). auto.
  - intros Hb. destruct (H7 Hb). discriminate.
Qed.

Lemma Inv_spawn_created (w : World) (k : nat) (address port : JsVal)
    (h : Handle) :
  Inv w -> frames w = [mkFrame k (SpawnCreate address port)] ->
  Inv (set_frames [mkFrame k (Settled None)]
         (listen h (log (EmitListening (Spawn address port))
                      (with_socket (set_handle (Some h)) w)))).
Proof.
  intros [H1 H2 (done & k' & H3) H4 H5 H6 H7 H8] Hfr.
  unfold unfinished_spawns, has_bound in *. rewrite Hfr in *. simpl in *.
  constructor; unfold unfinished_spawns, has_bound; simpl;
    rewrite ?existsb_app; simpl; rewrite ?orb_false_r; auto; try lia.
  - intros Hi. destruct (H2 Hi) as [? _]. discriminate.
  - exists done, k'. destruct H3 as (? & ? & ? & Hix). repeat split; auto.
    intros f [<-|[]]. apply (Hix (mkFrame k (SpawnCreate address port))). auto.
  - intros _. split; [lia|]. apply binding_of_not_unbound; auto.
    intros Hu. specialize (H6 Hu). discriminate.
Qed.

Lemma Inv_settle (w w' : World) (f : Frame) (o : Settle) (p : Perform) :
  Inv w -> frames w = [f] ->
  resume (current f) o w = Some (p, w') ->
  Inv (set_frames [mkFrame (index f) p] w').
Proof.
  intros HI Hfr Hres. destruct f as [k p0]. simpl in *.
  pose proof (Inv_same w) as Same.
  destruct p0, o; simpl in Hres; try discriminate;
    try (injection Hres as <- <-).
  - (* SpawnResolve, Resolved *)
    destruct (has_port port);
      (eapply Same; eauto; rewrite ?has_bound_log, ?orb_false_r; auto).
  - (* SpawnResolve, Rejected *)
    eapply Inv_spawn_catch; eauto.
  - (* SpawnCreate, Created *)
    eapply Inv_spawn_created; eauto.
  - (* SpawnCreate, Rejected *)
    eapply Inv_spawn_catch; eauto.
  - (* SendResolve, Resolved *)
    destruct h as [h|].
    + injection Hres as Hres.
      destruct (transmit_frame h (hd_error addresses) port list callback w)
        as (? & ? & ? & ? & ? & ?).
      rewrite Hres in *. eapply Same; eauto.
    + injection Hres as <- <-. eapply Same; eauto.
  - eapply Same; eauto.
  - injection Hres as Hres.
    destruct (transmit_frame h host port rest callback w)
        as (? & ? & ? & ? & ? & ?).
    rewrite Hres in *. eapply Same; eauto.
  - destruct (truthy callback);
      (eapply Same; eauto; rewrite ?has_bound_log, ?orb_false_r; auto).
  - eapply Same; eauto; rewrite ?has_bound_log, ?orb_false_r; auto.
  - eapply Same; eauto.
  - eapply Same; eauto; rewrite ?has_bound_log, ?orb_false_r; auto.
Qed.

(** *** Every history keeps the invariant *)

Lemma frames_single (w : World) (n : nat) (f : Frame) :
  List.length (frames w) <= 1 -> nth_error (frames w) n = Some f ->
  n = 0 /\ frames w = [f].
Proof.
  destruct (frames w) as [|f0 [|f1 fs]]; simpl; intros Hl Hn.
  - destruct n; discriminate.
  - destruct n as [|[|n]]; simpl in Hn; try discriminate.
    injection Hn as ->. auto.
  - lia.
Qed.

Lemma resume_frames (p p' : Perform) (o : Settle) (w w' : World) :
  resume p o w = Some (p', w') -> frames w' = frames w.
Proof.
  destruct p, o; simpl; try discriminate; intros H.
  all: try (injection H as <- <-; try destruct (has_port port);
            try destruct (truthy callback); reflexivity).
  - destruct h as [h|]; injection H as H.
    + pose proof (transmit_frame h (hd_error addresses) port list callback w) as T.
      rewrite H in T. simpl in T. tauto.
    + congruence.
  - injection H as H.
    pose proof (transmit_frame h host port rest callback w) as T.
    rewrite H in T. simpl in T. tauto.
Qed.

Lemma Inv_set_pumps (ps : list Handle) (w : World) : Inv w -> Inv (set_pumps ps w).
Proof. intros [H1 H2 H3 H4 H5 H6 H7 H8]. constructor; auto. Qed.

Lemma Inv_loop_rejected (w : World) : Inv w -> Inv (set_frames [] w).
Proof.
  intros [H1 H2 (done & k & H3 & H3' & H3'' & _) H4 H5 H6 H7 H8].
  constructor; unfold unfinished_spawns, has_bound in *; simpl; auto.
  - intros Hi. split; [reflexivity | apply H2, Hi].
  - exists done, k. repeat split; auto. intros f [].
  - intros Hb. split; [reflexivity | apply H7, Hb].
Qed.

Lemma Inv_new_Socket (type listener : JsVal) : Inv (new_Socket type listener).
Proof.
  unfold new_Socket.
  destruct (is_object type); destruct (is_function listener);
    (constructor; unfold unfinished_spawns, has_bound; simpl; auto;
     try discriminate; exists [], 0; simpl; repeat split; auto; intros f []).
Qed.

Section RunInv.
Context {E : Engine}.

Lemma Inv_step (w w' : World) (i : Input) :
  Inv w -> step w i = Some w' -> Inv w'.
Proof.
  intros HI Hstep. destruct i; simpl in Hstep.
  - injection Hstep as <-. apply Inv_bind, HI.
  - injection Hstep as <-. apply Inv_send, HI.
  - injection Hstep as <-. apply Inv_close, HI.
  - destruct (nth_error (frames w) n) as [f|] eqn:Hn; [|discriminate].
    destruct (frames_single w n f (inv_frames w HI) Hn) as [-> Hfr].
    destruct (resume (current f) o w) as [[p w1]|] eqn:Hres; [|discriminate].
    injection Hstep as <-.
    rewrite (resume_frames _ _ _ _ _ Hres), Hfr. simpl.
    eapply Inv_settle; eauto.
  - destruct (nth_error (frames w) n) as [f|] eqn:Hn; [|discriminate].
    destruct (frames_single w n f (inv_frames w HI) Hn) as [-> Hfr].
    rewrite Hfr in Hstep. simpl in Hstep.
    destruct f as [k [| | | | | |[e|]]]; simpl in Hstep; try discriminate;
      injection Hstep as <-.
    + apply Inv_loop_rejected, HI.
    + apply Inv_drain; simpl; auto.
      * destruct (isIdle (socket w)) eqn:Hi; auto.
        destruct (inv_idle w HI Hi) as [Hnil _]. congruence.
      * destruct w as [s fs ps tr en st]. simpl in *. subst fs. exact HI.
  - destruct (existsb (Nat.eqb h) (pumps w)); [|discriminate].
    injection Hstep as <-. apply Inv_log; auto.
  - destruct (existsb (Nat.eqb h) (pumps w)); [|discriminate].
    injection Hstep as <-. apply Inv_log, Inv_set_pumps; auto.
Qed.

Lemma Inv_run (inputs : list Input) : forall w, Inv w -> Inv (run w inputs).
Proof.
  induction inputs as [|i rest IH]; intros w HI; simpl; auto.
  destruct (step w i) as [w'|] eqn:Hs; eauto using Inv_step.
Qed.
End RunInv.

(** *** What [schedule] and [drain] do to the queue *)

Lemma drain_some (k : nat) (t : Task) (w : World) :
  nth_error (workQueue (socket w)) k = Some t ->
  drain k w =
  set_frames (frames w ++ [mkFrame (S k) (fst (perform t (note_started t w)))])
    (snd (perform t (note_started t w))).
Proof.
  intros H. unfold drain. rewrite H.
  pose proof (perform_frame t (note_started t w)) as Hp.
  destruct (perform t (note_started t w)) as [p w']. simpl in *.
  destruct Hp as (-> & _). reflexivity.
Qed.

Lemma drain_none (k : nat) (w : World) :
  nth_error (workQueue (socket w)) k = None ->
  drain k w = with_socket (set_isIdle true) (with_socket (set_workQueue []) w).
Proof. intros H. unfold drain. rewrite H. reflexivity. Qed.

Lemma drain_started (k : nat) (t : Task) (w : World) :
  nth_error (workQueue (socket w)) k = Some t ->
  started (drain k w) = started w ++ [t] /\
  enqueued (drain k w) = enqueued w /\
  workQueue (socket (drain k w)) = workQueue (socket w) /\
  isIdle (socket (drain k w)) = isIdle (socket w) /\
  _bindState (socket (drain k w)) = _bindState (socket w) /\
  has_bound (drain k w) = has_bound w.
Proof.
  intros H. rewrite (drain_some k t w H).
  destruct (perform_frame t (note_started t w))
    as (_ & _ & He & Hs & Hb & Hi & Hbs & Hq & _).
  unfold has_bound in *. simpl in *. auto 10.
Qed.

Lemma schedule_fields (t : Task) (w : World) :
  let w' := snd (schedule t w) in
  workQueue (socket w') = workQueue (socket w) ++ [t] /\
  enqueued w' = enqueued w ++ [t] /\
  _bindState (socket w') = _bindState (socket w) /\
  has_bound w' = has_bound w.
Proof.
  destruct (isIdle (socket w)) eqn:Hi.
  - rewrite schedule_idle by exact Hi. simpl.
    set (w1 := with_socket (set_isIdle false)
                 (note_enqueued t (with_socket (push t) w))).
    assert (exists t0, nth_error (workQueue (socket w1)) 0 = Some t0) as [t0 H0].
    { simpl. destruct (workQueue (socket w)); simpl; eauto. }
    destruct (drain_started 0 t0 w1 H0) as (_ & He & Hq & _ & Hbs & Hb).
    rewrite He, Hq, Hbs, Hb. auto.
  - rewrite schedule_busy by exact Hi. simpl. auto.
Qed.


(** *** Histories only grow *)

(** The queue history of the new world is that of the old one. *)
Ltac nothing_more := exists []; symmetry; apply app_nil_r.

Lemma resume_keeps (p p' : Perform) (o : Settle) (w w' : World) :
  resume p o w = Some (p', w') ->
  enqueued w' = enqueued w /\ started w' = started w /\
  (has_bound w = true -> has_bound w' = true).
Proof.
  unfold spawn_catch, listen.
  destruct p, o; simpl; try discriminate; intros H.
  all: try (injection H as <- <-; try destruct (has_port port);
            try destruct (truthy callback); unfold has_bound; simpl;
            rewrite ?existsb_app; simpl; repeat split; auto;
            intros ->; reflexivity).
  - destruct h as [h|].
    + injection H as H.
      pose proof (transmit_frame h (hd_error addresses) port list callback w) as T.
      rewrite H in T. simpl in T. destruct T as (_ & _ & -> & -> & -> & _). auto.
    + injection H as <- <-. auto.
  - injection H as H.
    pose proof (transmit_frame h host port rest callback w) as T.
    rewrite H in T. simpl in T. destruct T as (_ & _ & -> & -> & -> & _). auto.
Qed.

Section Histories.
Context {E : Engine}.

Lemma step_grows (w w' : World) (i : Input) :
  step w i = Some w' ->
  (exists more, enqueued w' = enqueued w ++ more) /\
  (has_bound w = true -> has_bound w' = true).
Proof.
  intros Hstep. destruct i; simpl in Hstep.
  - injection Hstep as <-.
    destruct (_bindState (socket w)) eqn:Hs;
      try (rewrite bind_bound by congruence; simpl; split; auto;
           nothing_more).
    destruct (bind_unbound args w Hs) as (a & p & ->).
    destruct (schedule_fields (Spawn a p) (bind_prologue args w))
      as (_ & He & _ & Hb).
    destruct (bind_prologue_state args w) as (_ & Hb' & _).
    rewrite He, Hb, Hb'. split; auto.
    exists [Spawn a p]. unfold bind_prologue.
    destruct (is_function (last args VUndefined)); reflexivity.
  - injection Hstep as <-.
    destruct (send_cases buffer args w) as [(e & ->)|(l & p & h & c & ->)].
    + simpl. split; auto. nothing_more.
    + match goal with |- context [schedule ?t ?w1] =>
        destruct (schedule_fields t w1) as (_ & He & _ & Hb) end.
      rewrite He, Hb.
      destruct (_bindState (socket w)) eqn:Hs;
        try solve [split; eauto].
      destruct (bind_unbound
                  [VObj [("port", VNum 0); ("exclusive", VBool true)]; VNull]
                  w Hs) as (a & po & ->).
      match goal with |- context [schedule ?t ?w1] =>
        destruct (schedule_fields t w1) as (_ & He' & _ & Hb') end.
      rewrite He', Hb'. split.
      * eexists. rewrite <- app_assoc. reflexivity.
      * auto.
  - injection Hstep as <-. unfold close, bindM, effect, ret.
    destruct (is_function callback); simpl;
      match goal with |- context [schedule ?t ?w1] =>
        destruct (schedule_fields t w1) as (_ & He & _ & Hb) end;
      rewrite He, Hb, ?has_bound_log, ?orb_false_r; simpl; split; eauto.
  - destruct (nth_error (frames w) n) as [f|]; [|discriminate].
    destruct (resume (current f) o w) as [[p w1]|] eqn:Hres; [|discriminate].
    injection Hstep as <-.
    destruct (resume_keeps _ _ _ _ _ Hres) as (He & _ & Hb).
    unfold has_bound in *. simpl. rewrite He. split; auto.
    nothing_more.
  - destruct (nth_error (frames w) n) as [f|]; [|discriminate].
    destruct (current f) as [| | | | | |[e|]]; try discriminate;
      injection Hstep as <-.
    + simpl. split; auto. nothing_more.
    + set (w1 := set_frames (remove_nth n (frames w)) w).
      destruct (nth_error (workQueue (socket w1)) (index f)) as [t|] eqn:Hn.
      * destruct (drain_started _ _ _ Hn) as (_ & He & _ & _ & _ & Hb).
        rewrite He, Hb. split; auto. nothing_more.
      * rewrite (drain_none _ _ Hn). simpl. split; auto.
        nothing_more.
  - destruct (existsb (Nat.eqb h) (pumps w)); [|discriminate].
    injection Hstep as <-. rewrite has_bound_log, orb_false_r. simpl.
    split; auto. nothing_more.
  - destruct (existsb (Nat.eqb h) (pumps w)); [|discriminate].
    injection Hstep as <-. rewrite has_bound_log, orb_false_r. simpl.
    split; auto. nothing_more.
Qed.

Lemma run_grows (inputs : list Input) : forall w,
  (exists more, enqueued (run w inputs) = enqueued w ++ more) /\
  (has_bound w = true -> has_bound (run w inputs) = true).
Proof.
  induction inputs as [|i rest IH]; intros w; simpl.
  - split; auto. nothing_more.
  - destruct (step w i) as [w'|] eqn:Hs; [|apply IH].
    destruct (step_grows _ _ _ Hs) as [[m1 H1] H2].
    destruct (IH w') as [[m2 H3] H4]. split; auto.
    exists (m1 ++ m2). rewrite H3, H1, app_assoc. reflexivity.
Qed.
End Histories.

(** *** Consequences of the invariant *)

Lemma Inv_prefix (w : World) :
  Inv w -> exists later, enqueued w = started w ++ later.
Proof.
  intros HI. destruct (inv_fifo w HI) as (done & k & He & Hs & _).
  exists (skipn k (workQueue (socket w))).
  rewrite He, Hs, <- app_assoc, firstn_skipn. reflexivity.
Qed.


Lemma Inv_busy (w : World) (f : Frame) :
  Inv w -> In f (frames w) ->
  frames w = [f] /\ isIdle (socket w) = false /\
  index f <= List.length (workQueue (socket w)).
Proof.
  intros HI Hin.
  assert (Hf : frames w = [f]).
  { pose proof (inv_frames w HI) as Hl.
    destruct (frames w) as [|f0 [|f1 fs]]; simpl in *; try lia; try tauto.
    destruct Hin as [->|[]]. reflexivity. }
  repeat split; auto.
  - destruct (isIdle (socket w)) eqn:Hi; auto.
    destruct (inv_idle w HI Hi) as [Hnil _]. congruence.
  - destruct (inv_fifo w HI) as (done & k & _ & _ & Hk & Hix).
    rewrite (Hix f Hin). exact Hk.
Qed.


(* ================================================================= *)
(** ** The claims *)



(** C2.  [bind] on a socket that is not UNBOUND throws already-bound and
    changes nothing; on an UNBOUND socket it returns with [_bindState] set to
    BINDING by the call itself, so that a second [bind] right after it, before
    any promise has settled, throws already-bound. *)
Theorem bind_twice_already_bound (w : World) (args : list JsVal) :
  (_bindState (socket w) <> BIND_STATE_UNBOUND ->
   bind args w = (Throw ERR_SOCKET_ALREADY_BOUND, w)) /\
  (_bindState (socket w) = BIND_STATE_UNBOUND ->
   let w' := snd (bind args w) in
   fst (bind args w) = Ok tt /\
   _bindState (socket w') = BIND_STATE_BINDING /\
   forall args', bind args' w' = (Throw ERR_SOCKET_ALREADY_BOUND, w')).
Proof.
  split; [apply bind_bound|].
  intros Hu. destruct (bind_unbound args w Hu) as (a & p & Hb).
  assert (Hs : _bindState (socket (snd (bind args w))) = BIND_STATE_BINDING).
  { rewrite Hb.
    destruct (schedule_fields (Spawn a p) (bind_prologue args w))
      as (_ & _ & -> & _).
    apply bind_prologue_state. }
  simpl. repeat split; auto.
  - rewrite Hb. apply schedule_ok.
  - intros args'. apply bind_bound. rewrite Hs. discriminate.
Qed.

Lemma bind_twice_already_bound_witness :
  let w := createSocket (VStr "udp4") VUndefined in
  _bindState (socket w) = BIND_STATE_UNBOUND /\
  fst (bind [VNum 41234] w) = Ok tt /\
  fst (bind [VNum 41234] (snd (bind [VNum 41234] w))) =
  Throw ERR_SOCKET_ALREADY_BOUND.
Proof.
  intros w.
  destruct (bind_twice_already_bound w [VNum 41234]) as [_ H].
  destruct (H eq_refl) as (Hok & _ & Hthrow).
  split; [reflexivity|]. split; [exact Hok|].
  rewrite (Hthrow [VNum 41234]). reflexivity.
Defined.

(** C3.  A [send] that passes its argument checks on an UNBOUND socket makes
    exactly one [bind] call, with port 0 and exclusive set; that call
    schedules one [Spawn] for the wildcard address and port 0, and only then
    is the [Send] scheduled: the queue grows by the [Spawn] followed by the
    [Send].  On every socket and in every continuation the [Send] is started,
    if at all, right after that [Spawn]. *)
Theorem send_unbound_binds_first {E : Engine} (type listener : JsVal)
    (inputs : list Input) (buffer : JsVal) (args : list JsVal) :
  let w := run (createSocket type listener) inputs in
  _bindState (socket w) = BIND_STATE_UNBOUND ->
  fst (send buffer args w) = Ok tt ->
  let spawn := Spawn (wildcard (socket w)) (VNum 0) in
  exists list port host callback,
    let task := Send list port host callback in
    let w' := snd (send buffer args w) in
    bind auto_bind w =
      schedule spawn (with_socket (set_bindState BIND_STATE_BINDING) w) /\
    send buffer args w = schedule task (snd (bind auto_bind w)) /\
    workQueue (socket w') = workQueue (socket w) ++ [spawn; task] /\
    enqueued w' = enqueued w ++ [spawn; task] /\
    forall more x,
      nth_error (started (run w' more)) (S (List.length (enqueued w))) = Some x ->
      x = task /\
      nth_error (started (run w' more)) (List.length (enqueued w)) = Some spawn.
Proof.
  intros w Hu Hok spawn.
  assert (HI : Inv w) by (apply Inv_run, Inv_new_Socket).
  assert (Hbind : bind auto_bind w =
            schedule spawn (with_socket (set_bindState BIND_STATE_BINDING) w)).
  { unfold bind, bindM, this, effect, auto_bind. simpl. rewrite Hu. reflexivity. }
  destruct (send_cases buffer args w) as [(e & He)|(l & p & h & c & Hs)].
  { rewrite He in Hok. discriminate. }
  rewrite Hu in Hs. fold auto_bind in Hs.
  exists l, p, h, c. cbv zeta.
  destruct (schedule_fields (Send l p h c) (snd (bind auto_bind w)))
    as (Hq & He & _).
  destruct (schedule_fields spawn
              (with_socket (set_bindState BIND_STATE_BINDING) w))
    as (Hq' & He' & _).
  rewrite <- Hbind in Hq', He'. simpl in Hq', He'.
  assert (Hen : enqueued (snd (send buffer args w)) =
                enqueued w ++ [spawn; Send l p h c]).
  { rewrite Hs, He, He', <- app_assoc. reflexivity. }
  split; [exact Hbind|]. split; [exact Hs|].
  split; [rewrite Hs, Hq, Hq', <- app_assoc; reflexivity|].
  split; [exact Hen|].
  intros more x Hnth.
  set (w2 := run (snd (send buffer args w)) more) in *.
  assert (HI2 : Inv w2) by (apply Inv_run, Inv_send, HI).
  destruct (Inv_prefix w2 HI2) as [later Hpre].
  destruct (run_grows more (snd (send buffer args w))) as [[rest Hgr] _].
  fold w2 in Hgr. rewrite Hen, <- app_assoc in Hgr.
  assert (Hlen : S (List.length (enqueued w)) < List.length (started w2))
    by (apply nth_error_Some; congruence).
  split.
  - assert (Hx : nth_error (enqueued w2) (S (List.length (enqueued w))) = Some x)
      by (rewrite Hpre, nth_error_app1; auto).
    rewrite Hgr, nth_error_app2 in Hx by lia.
    replace (S (List.length (enqueued w)) - List.length (enqueued w)) with 1
      in Hx by lia.
    simpl in Hx. congruence.
  - assert (Hx : nth_error (enqueued w2) (List.length (enqueued w)) =
                 nth_error (started w2) (List.length (enqueued w)))
      by (rewrite Hpre; apply nth_error_app1; lia).
    rewrite <- Hx, Hgr, nth_error_app2 by lia.
    rewrite Nat.sub_diag. reflexivity.
Qed.

Lemma send_unbound_binds_first_witness :
  let w := @run plain_engine (createSocket (VStr "udp4") VUndefined) [] in
  _bindState (socket w) = BIND_STATE_UNBOUND /\
  fst (@send plain_engine (VStr "a") [VNum 8000; VStr "localhost"] w) = Ok tt /\
  exists list port host callback,
    workQueue (socket (snd (@send plain_engine (VStr "a")
                              [VNum 8000; VStr "localhost"] w))) =
    [Spawn (VStr "0.0.0.0") (VNum 0); Send list port host callback].
Proof.
  intros w. split; [reflexivity|]. split; [reflexivity|].
  destruct (@send_unbound_binds_first plain_engine (VStr "udp4") VUndefined []
              (VStr "a") [VNum 8000; VStr "localhost"] eq_refl eq_refl)
    as (l & p & h & c & _ & _ & Hq & _).
  exists l, p, h, c. exact Hq.
Defined.

(** *** [Send.perform] and the resolver *)

(** With no live handle and a lookup that succeeds, the task does nothing. *)
Lemma send_skipped_without_handle (w : World) (l : list Uint8Array) (port : Z)
    (callback : JsVal) (addresses : list string) :
  resume (SendResolve None l port callback) (Resolved addresses) w =
  Some (Settled None, w).
Proof. reflexivity. Qed.

(** A lookup that fails rejects [perform], handle or not. *)
Lemma send_lookup_failure_rejects (w : World) (h : option Handle)
    (l : list Uint8Array) (port : Z) (callback : JsVal) (e : JsError) :
  resume (SendResolve h l port callback) (Rejected e) w =
  Some (Settled (Some e), w).
Proof. reflexivity. Qed.

(** C4.  The code at the failing input.  A bound socket is closed, then
    [send] is called: the [Send] task runs with no live handle.  When its
    lookup is rejected, [perform] is rejected too, because [Send.perform]
    awaits the resolver outside its [try] block: the error is raised into
    [awake], which ends without setting [isIdle] back, and the [Close]
    scheduled afterwards never starts.  (With a lookup that succeeds the task
    does nothing, see [send_skipped_without_handle].) *)
Theorem send_without_handle_raises_on_lookup_failure :
  let failure := HostFailure "ENOTFOUND" in
  let w := @run plain_engine (createSocket (VStr "udp4") VUndefined)
             [CallBind [VNum 41234];
              HostSettle 0 (Resolved ["0.0.0.0"]); HostSettle 0 (Created 1);
              LoopResume 0;
              CallClose VUndefined; HostSettle 0 Closed; LoopResume 0;
              CallSend (VStr "a") [VNum 8000; VStr "unknown.invalid"; VFun 9]] in
  (_handle (socket w) = None /\
   frames w = [mkFrame 1 (SendResolve None [Buffer_from "a"] 8000 (VFun 9))]) /\
  let w1 := @run plain_engine w [HostSettle 0 (Rejected failure)] in
  frames w1 = [mkFrame 1 (Settled (Some failure))] /\
  let w2 := @run plain_engine w1 [LoopResume 0; CallClose VUndefined] in
  frames w2 = [] /\ isIdle (socket w2) = false /\
  enqueued w2 = started w2 ++ [Close] /\
  forall n, @step plain_engine w2 (LoopResume n) = None.
Proof.
  cbv zeta. repeat split; try reflexivity.
  intros n. destruct n; reflexivity.
Qed.



Lemma to_uint32_range {E : Engine} (v : JsVal) :
  (0 <= to_uint32 v < two32)%Z.
Proof. unfold to_uint32. apply Z.mod_pos_bound. reflexivity. Qed.

Lemma bind_ok_or_bound (args : list JsVal) (w : World) :
  fst (bind args w) = Ok tt \/
  bind args w = (Throw ERR_SOCKET_ALREADY_BOUND, w).
Proof.
  destruct (_bindState (socket w)) eqn:Hs;
    try (right; apply bind_bound; congruence).
  left. destruct (bind_unbound args w Hs) as (a & p & ->). apply schedule_ok.
Qed.

(** The end of [send], once the arguments are accepted: never throws. *)
Lemma send_tail_ok (t : Task) (w : World) :
  fst (bindM (match _bindState (socket w) with
              | BIND_STATE_UNBOUND =>
                  bind [VObj [("port", VNum 0); ("exclusive", VBool true)]; VNull]
              | _ => ret tt
              end)
         (fun _ => schedule t) w) = Ok tt.
Proof.
  unfold bindM.
  destruct (_bindState (socket w)) eqn:Hs; simpl; try apply schedule_ok.
  destruct (bind_ok_or_bound
              [VObj [("port", VNum 0); ("exclusive", VBool true)]; VNull] w)
    as [Hok|Hb].
  - destruct (bind _ w) as [[[]|e] w1]; simpl in *;
      [apply schedule_ok | discriminate].
  - destruct (bind_unbound
                [VObj [("port", VNum 0); ("exclusive", VBool true)]; VNull] w Hs)
      as (a & p & Hb').
    pose proof (schedule_ok (Spawn a p)
      (bind_prologue
         [VObj [("port", VNum 0); ("exclusive", VBool true)]; VNull] w)) as Hok.
    rewrite <- Hb', Hb in Hok. discriminate.
Qed.

Section SendChecks.
Context {E : Engine}.

(** [send] after its buffer and port checks. *)
Lemma send_port_ok (w : World) (buffer : JsVal) (args : list JsVal)
    (b port address callback : JsVal) (list : list Uint8Array) :
  send_shape buffer args = Ok (b, port, address, callback) ->
  send_list b = Ok list ->
  ((to_uint32 port =? 0) || (65535 <? to_uint32 port))%Z = false ->
  fst (send buffer args w) = Ok tt \/
  send buffer args w = (Throw (ERR_INVALID_ARG_TYPE "address"), w).
Proof.
  intros Hshape Hlist Hp. unfold send, bindM, lift.
  rewrite Hshape, Hlist, Hp.
  destruct (is_function address); simpl.
  - left. exact (send_tail_ok _ w).
  - destruct (truthy address && negb (is_string address)); simpl.
    + right. reflexivity.
    + left. exact (send_tail_ok _ w).
Qed.

Lemma send_port_bad (w : World) (buffer : JsVal) (args : list JsVal)
    (b port address callback : JsVal) (list : list Uint8Array) :
  send_shape buffer args = Ok (b, port, address, callback) ->
  send_list b = Ok list ->
  ((to_uint32 port =? 0) || (65535 <? to_uint32 port))%Z = true ->
  send buffer args w = (Throw (ERR_SOCKET_BAD_PORT (to_uint32 port)), w).
Proof.
  intros Hshape Hlist Hp. unfold send, bindM, lift.
  rewrite Hshape, Hlist, Hp. reflexivity.
Qed.
End SendChecks.

Lemma port_test (p : Z) :
  ((p =? 0) || (65535 <? p))%Z = true <-> (p = 0 \/ 65535 < p)%Z.
Proof. rewrite orb_true_iff, Z.eqb_eq, Z.ltb_lt. reflexivity. Qed.

(** C6.  For a call whose buffer argument is accepted: the port is coerced
    to an unsigned 32-bit value, and [send] throws a bad-port error exactly
    when that value is 0 or greater than 65535; the error carries the coerced
    value, and nothing has been bound or enqueued when it is thrown.  Ports 0
    and 70000 are rejected in this way, in the short shape of the call and in
    the offset/length shape.  (The port is the one [send] settles on once it
    has told the two shapes apart.) *)
Theorem send_bad_port_iff {E : Engine} (w : World) (buffer : JsVal)
    (args : list JsVal) (b port address callback : JsVal)
    (list : list Uint8Array) :
  send_shape buffer args = Ok (b, port, address, callback) ->
  send_list b = Ok list ->
  let p := to_uint32 port in
  (0 <= p < two32)%Z /\
  ((exists q, fst (send buffer args w) = Throw (ERR_SOCKET_BAD_PORT q)) <->
   (p = 0 \/ 65535 < p)%Z) /\
  ((p = 0 \/ 65535 < p)%Z ->
   send buffer args w = (Throw (ERR_SOCKET_BAD_PORT p), w)) /\
  (forall s h, send (VStr s) [VNum 0; VStr h] w =
               (Throw (ERR_SOCKET_BAD_PORT 0), w)) /\
  (forall s h, send (VStr s) [VNum 70000; VStr h] w =
               (Throw (ERR_SOCKET_BAD_PORT 70000), w)) /\
  (forall s offset length h, truthy (VStr h) = true ->
     send (VStr s) [offset; length; VNum 0; VStr h] w =
       (Throw (ERR_SOCKET_BAD_PORT 0), w) /\
     send (VStr s) [offset; length; VNum 70000; VStr h] w =
       (Throw (ERR_SOCKET_BAD_PORT 70000), w)).
Proof.
  intros Hshape Hlist p.
  split; [apply to_uint32_range|].
  assert (Hbad : (p = 0 \/ 65535 < p)%Z ->
                 send buffer args w = (Throw (ERR_SOCKET_BAD_PORT p), w)).
  { intros Hp. eapply send_port_bad; eauto. apply port_test, Hp. }
  split; [|split; [exact Hbad|]].
  - split.
    + intros [q Hq].
      destruct ((p =? 0)%Z || (65535 <? p)%Z) eqn:Hp;
        [apply port_test, Hp|].
      destruct (send_port_ok w _ _ _ _ _ _ _ Hshape Hlist Hp) as [H|H];
        rewrite H in Hq; discriminate.
    + intros Hp. exists p. rewrite (Hbad Hp). reflexivity.
  - split; [|split]; try (intros s h; reflexivity).
    intros s offset length h Hh.
    split; unfold send, bindM, lift, send_shape, send_long, arg;
      simpl nth; rewrite Hh; reflexivity.
Qed.

Lemma send_bad_port_iff_witness :
  let w := createSocket (VStr "udp4") VUndefined in
  let args := [VNum 0; VNum 1; VNum (-1); VStr "localhost"] in
  @send_shape plain_engine (VStr "ab") args =
    Ok (VBytes (mkU8 true ["a"%byte; "b"%byte] 0 1), VNum (-1),
        VStr "localhost", VUndefined) /\
  @send plain_engine (VStr "ab") args w =
    (Throw (ERR_SOCKET_BAD_PORT 4294967295), w).
Proof.
  intros w args. split; [reflexivity|].
  destruct (@send_bad_port_iff plain_engine w (VStr "ab") args _ _ _ _ _
              eq_refl eq_refl) as (_ & _ & H & _).
  apply H. right. reflexivity.
Defined.






(** *** A list of two strings, sent from a bound socket *)

Section SendTwo.
Context {E : Engine}.
Variables (port : Z) (address : string) (cb : FunId).
Hypothesis port_ok : (1 <= port <= 65535)%Z.
Hypothesis address_ok : address <> EmptyString.

Lemma send_two_schedules (w : World) :
  _bindState (socket w) <> BIND_STATE_UNBOUND ->
  send two_strings (two_args port address cb) w =
  schedule (two_task port address cb) w.
Proof.
  intros Hs.
  assert (Hp : ((port =? 0)%Z || (65535 <? port)%Z) = false)
    by (apply orb_false_iff; split;
        [apply Z.eqb_neq | apply Z.ltb_ge]; lia).
  assert (Ha : String.eqb address EmptyString = false)
    by (apply String.eqb_neq; exact address_ok).
  unfold send, bindM, lift, this, two_strings, two_args, two_task. simpl.
  unfold to_uint32. simpl.
  rewrite Z.mod_small by (unfold two32; lia).
  rewrite Hp. simpl. rewrite Ha. simpl.
  destruct (_bindState (socket w)); try contradiction;
    unfold js_or; simpl; rewrite Ha; reflexivity.
Qed.

Lemma send_two_run (w : World) (h : Handle) (addresses : list string) :
  isIdle (socket w) = true -> workQueue (socket w) = [] -> frames w = [] ->
  _handle (socket w) = Some h ->
  _bindState (socket w) = BIND_STATE_BINDING ->
  let call := CallSend two_strings (two_args port address cb) in
  let host := hd_error addresses in
  let lookup := DnsResolve (VStr address) in
  let first := HandleSend h host port (list_byte_of_string "a") in
  let second := HandleSend h host port (list_byte_of_string "b") in
  let settle := HostSettle 0 in
  trace (run w [call]) = trace w ++ [lookup] /\
  trace (run w [call; settle (Resolved addresses)]) =
    trace w ++ [lookup; first] /\
  trace (run w [call; settle (Resolved addresses); settle Sent]) =
    trace w ++ [lookup; first; second] /\
  trace (run w [call; settle (Resolved addresses); settle Sent; settle Sent]) =
    trace w ++ [lookup; first; second; SetTimeout 20] /\
  let final := run w [call; settle (Resolved addresses); settle Sent;
                      settle Sent; settle TimerFired] in
  trace final =
    trace w ++ [lookup; first; second; SetTimeout 20; Invoke (VFun cb) None] /\
  frames final = [mkFrame 1 (Settled None)] /\
  started final = started w ++ [two_task port address cb].
Proof.
  intros Hi Hq Hf Hh Hs.
  assert (Hcall : step w (CallSend two_strings (two_args port address cb)) =
            Some (drain 0 (with_socket (set_isIdle false)
                     (note_enqueued (two_task port address cb)
                        (with_socket (push (two_task port address cb)) w))))).
  { simpl. rewrite send_two_schedules by (rewrite Hs; discriminate).
    rewrite schedule_idle by exact Hi. reflexivity. }
  cbv zeta. unfold run. rewrite Hcall. clear Hcall.
  destruct w as [[hd idle bs ra d q ty] fs ps tr en st]. simpl in *. subst.
  unfold drain. simpl. rewrite <- !app_assoc. simpl. auto 10.
Qed.
End SendTwo.

(** C8.  On a socket with a live handle [h],
    [send(["a", "b"], port, address, callback)] with a port in range and a
    non-empty address schedules one [Send] of the two encoded strings.  When
    that task runs while the handle is live, and the lookup and both
    transmissions succeed: the address is resolved; the bytes of "a" go to the
    first resolved address through [h], and nothing more until that
    transmission has settled; then the bytes of "b"; then the 20 ms timer;
    then [callback(null)], and the task resolves.  On an idle socket the task
    runs at once, so that these five events, in this order, are all that
    follows the call: exactly two payloads go out, in list order. *)
Theorem send_two_payloads {E : Engine} (type listener : JsVal)
    (inputs : list Input) (h : Handle) (port : Z) (address : string)
    (addresses : list string) (cb : FunId) :
  let w := run (createSocket type listener) inputs in
  _handle (socket w) = Some h ->
  (1 <= port <= 65535)%Z -> address <> EmptyString ->
  let task := two_task port address cb in
  let call := CallSend two_strings (two_args port address cb) in
  let host := hd_error addresses in
  let lookup := DnsResolve (VStr address) in
  let first := HandleSend h host port (list_byte_of_string "a") in
  let second := HandleSend h host port (list_byte_of_string "b") in
  let settle := HostSettle 0 in
  send two_strings (two_args port address cb) w = schedule task w /\
  (forall w1, _handle (socket w1) = Some h ->
     perform task w1 =
       (SendResolve (Some h) [Buffer_from "a"; Buffer_from "b"] port (VFun cb),
        log lookup w1) /\
     resume (SendResolve (Some h) [Buffer_from "a"; Buffer_from "b"] port
               (VFun cb)) (Resolved addresses) w1 =
       Some (SendTransmit h host port [Buffer_from "b"] (VFun cb),
             log first w1) /\
     resume (SendTransmit h host port [Buffer_from "b"] (VFun cb)) Sent w1 =
       Some (SendTransmit h host port [] (VFun cb), log second w1) /\
     resume (SendTransmit h host port [] (VFun cb)) Sent w1 =
       Some (SendDrain (VFun cb), log (SetTimeout 20) w1) /\
     resume (SendDrain (VFun cb)) TimerFired w1 =
       Some (Settled None, log (Invoke (VFun cb) None) w1)) /\
  (isIdle (socket w) = true ->
   trace (run w [call]) = trace w ++ [lookup] /\
   trace (run w [call; settle (Resolved addresses)]) =
     trace w ++ [lookup; first] /\
   trace (run w [call; settle (Resolved addresses); settle Sent]) =
     trace w ++ [lookup; first; second] /\
   trace (run w [call; settle (Resolved addresses); settle Sent; settle Sent]) =
     trace w ++ [lookup; first; second; SetTimeout 20] /\
   let final := run w [call; settle (Resolved addresses); settle Sent;
                       settle Sent; settle TimerFired] in
   trace final =
     trace w ++ [lookup; first; second; SetTimeout 20; Invoke (VFun cb) None] /\
   frames final = [mkFrame 1 (Settled None)] /\
   started final = started w ++ [task]).
Proof.
  intros w Hh Hp Ha.
  assert (HI : Inv w) by (apply Inv_run, Inv_new_Socket).
  assert (Hs : _bindState (socket w) = BIND_STATE_BINDING).
  { destruct (has_bound w) eqn:Hb; [apply (inv_bound w HI Hb)|].
    rewrite (inv_handle w HI Hb) in Hh. discriminate. }
  cbv zeta. split; [|split].
  - apply send_two_schedules; auto. rewrite Hs. discriminate.
  - intros w1 Hh1. simpl. rewrite Hh1. auto.
  - intros Hi. destruct (inv_idle w HI Hi) as [Hf Hq].
    apply send_two_run; auto.
Qed.

Lemma send_two_payloads_witness :
  let w := @run plain_engine (createSocket (VStr "udp4") VUndefined)
             [CallBind [VNum 41234];
              HostSettle 0 (Resolved ["0.0.0.0"]); HostSettle 0 (Created 1);
              LoopResume 0] in
  (isIdle (socket w) = true /\ _handle (socket w) = Some 1) /\
  trace (@run plain_engine w
           [CallSend two_strings (two_args 8000 "peer.example" 5);
            HostSettle 0 (Resolved ["192.0.2.7"]); HostSettle 0 Sent;
            HostSettle 0 Sent; HostSettle 0 TimerFired]) =
  trace w ++
  [DnsResolve (VStr "peer.example");
   HandleSend 1 (Some "192.0.2.7") 8000 ["a"%byte];
   HandleSend 1 (Some "192.0.2.7") 8000 ["b"%byte];
   SetTimeout 20; Invoke (VFun 5) None].
Proof.
  intros w. split; [split; reflexivity|].
  assert (Hport : (1 <= 8000 <= 65535)%Z) by lia.
  assert (Haddr : "peer.example" <> EmptyString) by discriminate.
  destruct (@send_two_payloads plain_engine (VStr "udp4") VUndefined
              [CallBind [VNum 41234];
               HostSettle 0 (Resolved ["0.0.0.0"]); HostSettle 0 (Created 1);
               LoopResume 0]
              1 8000%Z "peer.example" ["192.0.2.7"] 5
              eq_refl Hport Haddr)
    as (_ & _ & H).
  destruct (H eq_refl) as (_ & _ & _ & _ & Hfinal & _).
  exact Hfinal.
Defined.

(** C10.  On every socket, after every history: [_bindState] is not BOUND;
    a [bind] call that returns leaves it BINDING; nothing a [Close] task does
    changes it.  So once a [Spawn] has succeeded, in every continuation
    (closes included) [_bindState] is BINDING, every [bind] call throws
    already-bound, and [send], which binds only an UNBOUND socket, enqueues
    no [Spawn]: the socket is never bound again. *)
Theorem bind_state_never_bound {E : Engine} (type listener : JsVal)
    (inputs : list Input) :
  let w := run (createSocket type listener) inputs in
  _bindState (socket w) <> BIND_STATE_BOUND /\
  (forall args, fst (bind args w) = Ok tt ->
     _bindState (socket (snd (bind args w))) = BIND_STATE_BINDING) /\
  _bindState (socket (snd (perform Close w))) = _bindState (socket w) /\
  (forall o p w', resume CloseAwait o w = Some (p, w') ->
     _bindState (socket w') = _bindState (socket w)) /\
  (has_bound w = true ->
   forall later,
     let w2 := run w later in
     _bindState (socket w2) = BIND_STATE_BINDING /\
     (forall args, bind args w2 = (Throw ERR_SOCKET_ALREADY_BOUND, w2)) /\
     (forall buffer args,
        count_spawn (enqueued (snd (send buffer args w2))) =
        count_spawn (enqueued w2))).
Proof.
  intros w.
  assert (HI : Inv w) by (apply Inv_run, Inv_new_Socket).
  split; [apply (inv_never_bound w HI)|].
  split.
  { intros args Hok.
    destruct (_bindState (socket w)) eqn:Hs;
      try (rewrite bind_bound in Hok by congruence; discriminate).
    destruct (bind_unbound args w Hs) as (a & p & ->).
    destruct (schedule_fields (Spawn a p) (bind_prologue args w))
      as (_ & _ & -> & _).
    apply bind_prologue_state. }
  split; [apply (perform_frame Close w)|].
  split.
  { intros o p w' H. destruct o; simpl in H; try discriminate;
      injection H as <- <-; reflexivity. }
  intros Hb later w2.
  assert (HI2 : Inv w2) by (apply Inv_run, HI).
  assert (Hb2 : has_bound w2 = true) by (apply run_grows, Hb).
  destruct (inv_bound w2 HI2 Hb2) as [_ Hs].
  split; [exact Hs|]. split.
  - intros args. apply bind_bound. rewrite Hs. discriminate.
  - intros buffer args.
    destruct (send_cases buffer args w2) as [(e & ->)|(l & p & h & c & ->)];
      [reflexivity|].
    rewrite Hs.
    destruct (schedule_fields (Send l p h c) w2) as (_ & -> & _).
    rewrite count_spawn_app. unfold count_spawn at 2. simpl. lia.
Qed.

Lemma bind_state_never_bound_witness :
  let w := @run plain_engine (createSocket (VStr "udp4") VUndefined)
             [CallBind [VNum 41234];
              HostSettle 0 (Resolved ["0.0.0.0"]); HostSettle 0 (Created 1);
              LoopResume 0] in
  let w2 := @run plain_engine w
              [CallClose VUndefined; HostSettle 0 Closed; LoopResume 0] in
  has_bound w = true /\
  (_handle (socket w2) = None /\ isIdle (socket w2) = true) /\
  bind [VNum 41234] w2 = (Throw ERR_SOCKET_ALREADY_BOUND, w2) /\
  bind auto_bind w2 = (Throw ERR_SOCKET_ALREADY_BOUND, w2).
Proof.
  intros w w2. split; [reflexivity|]. split; [split; reflexivity|].
  destruct (@bind_state_never_bound plain_engine (VStr "udp4") VUndefined
              [CallBind [VNum 41234];
               HostSettle 0 (Resolved ["0.0.0.0"]); HostSettle 0 (Created 1);
               LoopResume 0]) as (_ & _ & _ & _ & H).
  destruct (H eq_refl [CallClose VUndefined; HostSettle 0 Closed; LoopResume 0])
    as (_ & Hthrow & _).
  split; apply Hthrow.
Defined.

(* ================================================================= *)
(** ** Traces *)

Lemma well_formed_snoc (reuse : bool) (l : list Event) : forall bound e,
  well_formed reuse bound (l ++ [e]) =
  well_formed reuse bound l
  && event_ok reuse (bound || existsb is_listening l) e.
Proof.
  induction l as [|x l IH]; intros bound e; simpl.
  - rewrite orb_false_r, andb_true_r. reflexivity.
  - rewrite IH, andb_assoc, orb_assoc. reflexivity.
Qed.

Lemma TraceInv_ext (w w' : World) :
  _reuseAddr (socket w') = _reuseAddr (socket w) ->
  trace w' = trace w ->
  (forall f, In f (frames w') ->
     In f (frames w) \/ (holds_handle (current f) = true -> has_bound w = true)) ->
  (forall h, In h (pumps w') -> In h (pumps w)) ->
  (_handle (socket w') = _handle (socket w) \/ _handle (socket w') = None) ->
  TraceInv w -> TraceInv w'.
Proof.
  intros Hr Ht Hf Hp Hh [T F P H].
  assert (Hb : has_bound w' = has_bound w) by (unfold has_bound; congruence).
  constructor; rewrite ?Hr, ?Ht, ?Hb.
  - exact T.
  - intros f Hin Hhold. destruct (Hf f Hin) as [Hin'|Himp]; eauto.
  - intros h Hin. eauto.
  - intros Hn. destruct Hh as [Hh|Hh]; rewrite Hh in Hn; [auto | contradiction].
Qed.

Lemma TraceInv_log (e : Event) (w : World) :
  event_ok (_reuseAddr (socket w)) (has_bound w) e = true ->
  TraceInv w -> TraceInv (log e w).
Proof.
  intros He [T F P H].
  constructor; rewrite ?has_bound_log; simpl.
  - rewrite well_formed_snoc, T. exact He.
  - intros f Hin Hh. rewrite (F f Hin Hh). reflexivity.
  - intros h Hin. rewrite (P h Hin). reflexivity.
  - intros Hn. rewrite (H Hn). reflexivity.
Qed.

Lemma TraceInv_perform (t : Task) (w : World) :
  TraceInv w ->
  TraceInv (snd (perform t w)) /\
  (holds_handle (fst (perform t w)) = true ->
   has_bound (snd (perform t w)) = true).
Proof.
  intros HT. destruct t; simpl.
  - split; [apply TraceInv_log; auto | discriminate].
  - split; [apply TraceInv_log; auto|].
    rewrite has_bound_log, orb_false_r.
    destruct (_handle (socket w)) eqn:Hh; simpl; [|discriminate].
    intros _. apply (ti_handle w HT). congruence.
  - destruct (_handle (socket w)) eqn:Hh; simpl.
    + split; [|discriminate].
      apply TraceInv_log.
      * simpl. apply (ti_handle w HT). congruence.
      * apply (TraceInv_ext w); simpl; auto.
    + split; [apply TraceInv_log; auto | discriminate].
Qed.

Lemma TraceInv_drain (k : nat) (w : World) : TraceInv w -> TraceInv (drain k w).
Proof.
  intros HT. unfold drain.
  destruct (nth_error (workQueue (socket w)) k) as [t|].
  - assert (HT1 : TraceInv (note_started t w))
      by (apply (TraceInv_ext w); simpl; auto).
    destruct (TraceInv_perform t _ HT1) as [HT2 Hh].
    pose proof (perform_frame t (note_started t w)) as Hp.
    destruct (perform t (note_started t w)) as [p w']. simpl in *.
    destruct Hp as (Hf & _).
    destruct HT2 as [T F P H].
    constructor; unfold has_bound in *; simpl; auto.
    intros f Hin Hhold. apply in_app_or in Hin.
    destruct Hin as [Hin|[<-|[]]]; eauto.
  - apply (TraceInv_ext w); simpl; auto.
Qed.

Lemma TraceInv_schedule (t : Task) (w : World) :
  TraceInv w -> TraceInv (snd (schedule t w)).
Proof.
  intros HT.
  assert (HT1 : TraceInv (note_enqueued t (with_socket (push t) w)))
    by (apply (TraceInv_ext w); simpl; auto).
  destruct (isIdle (socket w)) eqn:Hi.
  - rewrite schedule_idle by exact Hi. simpl.
    apply TraceInv_drain. apply (TraceInv_ext w); simpl; auto.
  - rewrite schedule_busy by exact Hi. exact HT1.
Qed.

Lemma TraceInv_bind (args : list JsVal) (w : World) :
  TraceInv w -> TraceInv (snd (bind args w)).
Proof.
  intros HT.
  destruct (_bindState (socket w)) eqn:Hs;
    try (rewrite bind_bound by congruence; exact HT).
  destruct (bind_unbound args w Hs) as (a & p & ->).
  apply TraceInv_schedule. unfold bind_prologue.
  assert (TraceInv (with_socket (set_bindState BIND_STATE_BINDING) w))
    by (apply (TraceInv_ext w); simpl; auto).
  destruct (is_function (last args VUndefined)); auto.
  apply TraceInv_log; auto.
Qed.

Lemma TraceInv_close (callback : JsVal) (w : World) :
  TraceInv w -> TraceInv (snd (close callback w)).
Proof.
  intros HT. unfold close, bindM, effect, ret.
  destruct (is_function callback); simpl; apply TraceInv_schedule; auto.
  apply TraceInv_log; auto.
Qed.

Lemma TraceInv_send {E : Engine} (buffer : JsVal) (args : list JsVal)
    (w : World) :
  TraceInv w -> TraceInv (snd (send buffer args w)).
Proof.
  intros HT.
  destruct (send_cases buffer args w) as [(e & ->)|(l & p & h & c & ->)]; auto.
  apply TraceInv_schedule.
  destruct (_bindState (socket w)); auto using TraceInv_bind.
Qed.

Lemma spawning_not_bound (w : World) (f : Frame) :
  Inv w -> frames w = [f] -> spawning (current f) = 1 -> has_bound w = false.
Proof.
  intros HI Hf Hsp. destruct (has_bound w) eqn:Hb; auto.
  destruct (inv_bound w HI Hb) as [H0 _].
  unfold unfinished_spawns in H0. rewrite Hf, Hsp in H0. discriminate.
Qed.

Lemma TraceInv_set_frames (w : World) (k : nat) (p : Perform) :
  TraceInv w -> (holds_handle p = true -> has_bound w = true) ->
  TraceInv (set_frames [mkFrame k p] w).
Proof.
  intros HT Hp. apply (TraceInv_ext w); simpl; auto.
  intros f [<-|[]]. right. exact Hp.
Qed.

Lemma TraceInv_transmit h host port l callback (w : World) :
  TraceInv w -> has_bound w = true ->
  TraceInv (snd (transmit h host port l callback w)) /\
  has_bound (snd (transmit h host port l callback w)) = true.
Proof.
  intros HT Hb. unfold transmit.
  destruct l as [|b rest]; [destruct (truthy callback)|]; simpl;
    rewrite ?has_bound_log, ?Hb; auto;
    (split; [apply TraceInv_log; simpl; auto | reflexivity]).
Qed.

Lemma TraceInv_settle (w w' : World) (f : Frame) (o : Settle) (p : Perform) :
  Inv w -> TraceInv w -> frames w = [f] ->
  resume (current f) o w = Some (p, w') ->
  TraceInv (set_frames [mkFrame (index f) p] w').
Proof.
  intros HI HT Hfr Hres.
  assert (Hnb : spawning (current f) = 1 -> has_bound w = false)
    by (apply spawning_not_bound; auto).
  assert (Hhold : holds_handle (current f) = true -> has_bound w = true)
    by (apply (ti_frames w HT); rewrite Hfr; left; reflexivity).
  assert (Hcatch : forall e,
            TraceInv (set_frames [mkFrame (index f) (Settled None)]
                        (snd (spawn_catch e w)))).
  { intros e. apply TraceInv_set_frames; [|discriminate].
    apply TraceInv_log; auto. apply (TraceInv_ext w); simpl; auto. }
  destruct f as [k p0]. simpl in *.
  destruct p0, o; simpl in Hres; try discriminate;
    try (injection Hres as <- <-).
  - (* SpawnResolve, Resolved *)
    apply TraceInv_set_frames; [|discriminate].
    apply TraceInv_log; auto.
    destruct (has_port port); simpl;
      rewrite (Hnb eq_refl), eqb_reflx; reflexivity.
  - apply Hcatch.
  - (* SpawnCreate, Created *)
    apply TraceInv_set_frames; [|discriminate].
    unfold listen.
    assert (H1 : TraceInv (log (EmitListening (Spawn address0 port))
                             (with_socket (set_handle (Some h)) w))).
    { destruct HT as [T F P H].
      constructor; rewrite ?has_bound_log; simpl; rewrite ?orb_true_r; auto.
      rewrite well_formed_snoc, T. simpl.
      unfold has_bound in Hnb. rewrite (Hnb eq_refl). reflexivity. }
    assert (H2 : TraceInv (log (HandleMessages h)
                   (log (EmitListening (Spawn address0 port))
                      (with_socket (set_handle (Some h)) w)))).
    { apply TraceInv_log; auto. simpl. rewrite has_bound_log. simpl.
      apply orb_true_r. }
    destruct H2 as [T F P H].
    constructor; auto.
    intros h0 _. unfold has_bound. simpl. rewrite !existsb_app. simpl.
    rewrite orb_true_r. reflexivity.
  - apply Hcatch.
  - (* SendResolve, Resolved *)
    destruct h as [h|].
    + injection Hres as Hres.
      destruct (TraceInv_transmit h (hd_error addresses) port list callback w HT
                  (Hhold eq_refl)) as [H1 H2].
      rewrite Hres in H1, H2. simpl in H1, H2.
      apply TraceInv_set_frames; auto.
    + injection Hres as <- <-. apply TraceInv_set_frames; [auto | discriminate].
  - apply TraceInv_set_frames; [auto | discriminate].
  - injection Hres as Hres.
    destruct (TraceInv_transmit h host port rest callback w HT (Hhold eq_refl))
      as [H1 H2].
    rewrite Hres in H1, H2. simpl in H1, H2.
    apply TraceInv_set_frames; auto.
  - apply TraceInv_set_frames; [|discriminate].
    destruct (truthy callback); auto. apply TraceInv_log; auto.
  - apply TraceInv_set_frames; [|discriminate]. apply TraceInv_log; auto.
  - apply TraceInv_set_frames; [auto | discriminate].
  - apply TraceInv_set_frames; [|discriminate]. apply TraceInv_log; auto.
Qed.

Lemma TraceInv_new_Socket (type listener : JsVal) :
  TraceInv (new_Socket type listener).
Proof.
  unfold new_Socket.
  destruct (is_object type); destruct (is_function listener);
    (constructor; unfold has_bound; simpl; auto;
     try (intros f []); try (intros Hn; contradiction)).
Qed.

Section TraceRun.
Context {E : Engine}.

Lemma TraceInv_step (w w' : World) (i : Input) :
  Inv w -> TraceInv w -> step w i = Some w' -> TraceInv w'.
Proof.
  intros HI HT Hstep. destruct i; simpl in Hstep.
  - injection Hstep as <-. apply TraceInv_bind, HT.
  - injection Hstep as <-. apply TraceInv_send, HT.
  - injection Hstep as <-. apply TraceInv_close, HT.
  - destruct (nth_error (frames w) n) as [f|] eqn:Hn; [|discriminate].
    destruct (frames_single w n f (inv_frames w HI) Hn) as [-> Hfr].
    destruct (resume (current f) o w) as [[p w1]|] eqn:Hres; [|discriminate].
    injection Hstep as <-.
    rewrite (resume_frames _ _ _ _ _ Hres), Hfr. simpl.
    eapply TraceInv_settle; eauto.
  - destruct (nth_error (frames w) n) as [f|] eqn:Hn; [|discriminate].
    destruct (frames_single w n f (inv_frames w HI) Hn) as [-> Hfr].
    rewrite Hfr in Hstep. simpl in Hstep.
    assert (H0 : TraceInv (set_frames [] w))
      by (apply (TraceInv_ext w); simpl; auto; intros ? []).
    destruct f as [k [| | | | | |[e|]]]; simpl in Hstep; try discriminate;
      injection Hstep as <-; auto using TraceInv_drain.
  - destruct (existsb (Nat.eqb h) (pumps w)) eqn:Hex; [|discriminate].
    injection Hstep as <-.
    apply existsb_exists in Hex. destruct Hex as (h' & Hin & Heq).
    apply Nat.eqb_eq in Heq. subst h'.
    apply TraceInv_log; auto. simpl.
    rewrite (ti_pumps w HT h Hin), Nat.eqb_refl. unfold toNodeFamily.
    destruct (family =? 2)%Z; reflexivity.
  - destruct (existsb (Nat.eqb h) (pumps w)) eqn:Hex; [|discriminate].
    injection Hstep as <-.
    apply existsb_exists in Hex. destruct Hex as (h' & Hin & Heq).
    apply Nat.eqb_eq in Heq. subst h'.
    apply TraceInv_log.
    + simpl. apply (ti_pumps w HT h Hin).
    + apply (TraceInv_ext w); simpl; auto.
      intros h0 Hin0. apply in_remove in Hin0. tauto.
Qed.

Lemma TraceInv_run (inputs : list Input) : forall w,
  Inv w -> TraceInv w -> TraceInv (run w inputs).
Proof.
  induction inputs as [|i rest IH]; intros w HI HT; simpl; auto.
  destruct (step w i) as [w'|] eqn:Hs; eauto using Inv_step, TraceInv_step.
Qed.
End TraceRun.

Lemma well_formed_at (reuse : bool) (pre : list Event) : forall bound e post,
  well_formed reuse bound (pre ++ e :: post) = true ->
  event_ok reuse (bound || existsb is_listening pre) e = true.
Proof.
  induction pre as [|x pre IH]; intros bound e post H; simpl in *.
  - rewrite orb_false_r. apply andb_true_iff in H. tauto.
  - apply andb_true_iff in H. destruct H as [_ H].
    rewrite orb_assoc. eapply IH. exact H.
Qed.

Lemma well_formed_listening (reuse : bool) (l : list Event) : forall bound,
  well_formed reuse bound l = true ->
  count_listening l <= if bound then 0 else 1.
Proof.
  unfold count_listening.
  induction l as [|e l IH]; intros bound H; simpl in *.
  - destruct bound; lia.
  - apply andb_true_iff in H. destruct H as [He H].
    specialize (IH _ H).
    destruct (is_listening e) eqn:Hl.
    + destruct e; try discriminate. simpl in He.
      destruct bound; [discriminate|]. simpl in *. lia.
    + rewrite orb_false_r in IH. exact IH.
Qed.

(** *** What no step changes *)

Lemma static_perform (t : Task) (w : World) :
  static (snd (perform t w)) = static w.
Proof. destruct t; simpl; auto. destruct (_handle (socket w)); reflexivity. Qed.

Lemma static_drain (k : nat) (w : World) : static (drain k w) = static w.
Proof.
  unfold drain. destruct (nth_error (workQueue (socket w)) k) as [t|]; auto.
  pose proof (static_perform t (note_started t w)) as H.
  destruct (perform t (note_started t w)) as [p w']. exact H.
Qed.

Lemma static_schedule (t : Task) (w : World) :
  static (snd (schedule t w)) = static w.
Proof.
  destruct (isIdle (socket w)) eqn:Hi.
  - rewrite schedule_idle by exact Hi. simpl. rewrite static_drain. reflexivity.
  - rewrite schedule_busy by exact Hi. reflexivity.
Qed.

Lemma static_bind (args : list JsVal) (w : World) :
  static (snd (bind args w)) = static w.
Proof.
  destruct (_bindState (socket w)) eqn:Hs;
    try (rewrite bind_bound by congruence; reflexivity).
  destruct (bind_unbound args w Hs) as (a & p & ->).
  rewrite static_schedule. unfold bind_prologue.
  destruct (is_function (last args VUndefined)); reflexivity.
Qed.

Lemma static_resume (p p' : Perform) (o : Settle) (w w' : World) :
  resume p o w = Some (p', w') -> static w' = static w.
Proof.
  unfold spawn_catch, listen.
  destruct p, o; simpl; try discriminate; intros H.
  all: try (injection H as <- <-; try destruct (has_port port);
            try destruct (truthy callback); reflexivity).
  - destruct h as [h|]; [|injection H as <- <-; reflexivity].
    injection H as H.
    destruct (transmit_frame h (hd_error addresses) port list callback w)
      as (Hs & _).
    rewrite H in Hs. simpl in Hs. unfold static. rewrite Hs. reflexivity.
  - injection H as H.
    destruct (transmit_frame h host port rest callback w) as (Hs & _).
    rewrite H in Hs. simpl in Hs. unfold static. rewrite Hs. reflexivity.
Qed.

Section Static.
Context {E : Engine}.

Lemma static_step (w w' : World) (i : Input) :
  step w i = Some w' -> static w' = static w.
Proof.
  intros Hstep. destruct i; simpl in Hstep.
  - injection Hstep as <-. apply static_bind.
  - injection Hstep as <-.
    destruct (send_cases buffer args w) as [(e & ->)|(l & p & h & c & ->)]; auto.
    rewrite static_schedule.
    destruct (_bindState (socket w)); auto using static_bind.
  - injection Hstep as <-. unfold close, bindM, effect, ret.
    destruct (is_function callback); simpl; rewrite static_schedule; reflexivity.
  - destruct (nth_error (frames w) n) as [f|]; [|discriminate].
    destruct (resume (current f) o w) as [[p w1]|] eqn:Hres; [|discriminate].
    injection Hstep as <-. apply (static_resume _ _ _ _ _ Hres).
  - destruct (nth_error (frames w) n) as [f|]; [|discriminate].
    destruct (current f) as [| | | | | |[e|]]; try discriminate;
      injection Hstep as <-; [reflexivity|].
    rewrite static_drain. reflexivity.
  - destruct (existsb (Nat.eqb h) (pumps w)); [|discriminate].
    injection Hstep as <-. reflexivity.
  - destruct (existsb (Nat.eqb h) (pumps w)); [|discriminate].
    injection Hstep as <-. reflexivity.
Qed.

Lemma static_run (inputs : list Input) : forall w,
  static (run w inputs) = static w.
Proof.
  induction inputs as [|i rest IH]; intros w; simpl; auto.
  destruct (step w i) as [w'|] eqn:Hs; auto.
  rewrite IH. apply (static_step _ _ _ Hs).
Qed.
End Static.

Lemma static_new_Socket (type listener : JsVal) :
  static (new_Socket type listener) =
  (reuse_option type, type_option type,
   if is_object type && truthy (get_prop type "lookup")
   then FromNodeLookup (get_prop type "lookup") else LibDns).
Proof.
  unfold new_Socket, reuse_option, type_option, static.
  destruct (is_object type); simpl;
    try destruct (truthy (get_prop type "lookup")); reflexivity.
Qed.

(* ================================================================= *)
(** ** More of the socket *)

(** X1.  However a socket is used, it emits "listening" at most once, and a
    handle is requested from the host only while it has not: every
    [UDPSocket.create] precedes the one "listening" event, and carries as
    [addressReuse] the [reuseAddr] option the socket was built with. *)
Theorem listening_once {E : Engine} (type listener : JsVal)
    (inputs : list Input) :
  let w := run (createSocket type listener) inputs in
  count_listening (trace w) <= 1 /\
  (forall pre host port addressReuse post,
     trace w = pre ++ UdpCreate host port addressReuse :: post ->
     existsb is_listening pre = false /\ addressReuse = reuse_option type).
Proof.
  intros w.
  assert (HT : TraceInv w)
    by (apply TraceInv_run; [apply Inv_new_Socket | apply TraceInv_new_Socket]).
  assert (Hs : _reuseAddr (socket w) = reuse_option type).
  { pose proof (static_run inputs (createSocket type listener)) as H.
    fold w in H. unfold createSocket in H. rewrite static_new_Socket in H.
    unfold static in H. congruence. }
  pose proof (ti_trace w HT) as Hwf. rewrite Hs in Hwf.
  split; [apply (well_formed_listening _ _ _ Hwf)|].
  intros pre host port addressReuse post Ht. rewrite Ht in Hwf.
  apply well_formed_at in Hwf. simpl in Hwf.
  apply andb_true_iff in Hwf. destruct Hwf as [Hr Hb].
  apply eqb_prop in Hr. apply negb_true_iff in Hb. auto.
Qed.

Lemma listening_once_witness :
  let w := @run plain_engine
             (createSocket (VObj [("type", VStr "udp4"); ("reuseAddr", VBool true)])
                VUndefined)
             [CallBind [VNum 41234]; HostSettle 0 (Resolved ["0.0.0.0"])] in
  trace w = [DnsResolve (VStr "0.0.0.0")] ++
            UdpCreate (Some "0.0.0.0") (Some (VNum 41234)) true :: [] /\
  true = reuse_option (VObj [("type", VStr "udp4"); ("reuseAddr", VBool true)]).
Proof.
  intros w. split; [reflexivity|].
  destruct (@listening_once plain_engine
              (VObj [("type", VStr "udp4"); ("reuseAddr", VBool true)]) VUndefined
              [CallBind [VNum 41234]; HostSettle 0 (Resolved ["0.0.0.0"])])
    as [_ H].
  destruct (H [DnsResolve (VStr "0.0.0.0")] (Some "0.0.0.0")
              (Some (VNum 41234)) true [] eq_refl) as [_ Hr].
  exact Hr.
Defined.

(** X2.  However a socket is used, nothing is done with a handle and nothing
    comes from its pump before "listening" has been emitted: every
    transmission, every close of the handle, every "message" and every "close"
    event has the "listening" event before it in the trace. *)
Theorem handle_events_after_listening {E : Engine} (type listener : JsVal)
    (inputs : list Input) (pre post : list Event) (e : Event) :
  trace (run (createSocket type listener) inputs) = pre ++ e :: post ->
  after_bind e = true ->
  existsb is_listening pre = true.
Proof.
  intros Ht He.
  set (w := run (createSocket type listener) inputs) in *.
  assert (HT : TraceInv w)
    by (apply TraceInv_run; [apply Inv_new_Socket | apply TraceInv_new_Socket]).
  pose proof (ti_trace w HT) as Hwf. rewrite Ht in Hwf.
  apply well_formed_at in Hwf. simpl in Hwf.
  destruct e; simpl in He; try discriminate; simpl in Hwf; auto.
  apply andb_true_iff in Hwf. destruct Hwf as [Hwf _].
  apply andb_true_iff in Hwf. tauto.
Qed.

Lemma handle_events_after_listening_witness :
  let inputs := [CallBind [VNum 41234]; HostSettle 0 (Resolved ["0.0.0.0"]);
                 HostSettle 0 (Created 1); LoopResume 0;
                 CallClose VUndefined] in
  let pre := [DnsResolve (VStr "0.0.0.0");
              UdpCreate (Some "0.0.0.0") (Some (VNum 41234)) false;
              EmitListening (Spawn (VStr "0.0.0.0") (VNum 41234));
              HandleMessages 1] in
  trace (@run plain_engine (createSocket (VStr "udp4") VUndefined) inputs) =
    pre ++ HandleClose 1 :: [] /\
  existsb is_listening pre = true.
Proof.
  intros inputs pre. split; [reflexivity|].
  exact (@handle_events_after_listening plain_engine (VStr "udp4") VUndefined
           inputs pre [] (HandleClose 1) eq_refl eq_refl).
Defined.

(** X3.  Every "message" event a socket emits reports as family "udp6" or
    "udp4", and as size the length of the payload it carries. *)
Theorem message_events {E : Engine} (type listener : JsVal)
    (inputs : list Input) (data : list byte) (from : string) (family : string)
    (port : Z) (size : nat) :
  In (EmitMessage data from family port size)
     (trace (run (createSocket type listener) inputs)) ->
  (family = "udp4" \/ family = "udp6") /\ size = List.length data.
Proof.
  intros Hin.
  set (w := run (createSocket type listener) inputs) in *.
  assert (HT : TraceInv w)
    by (apply TraceInv_run; [apply Inv_new_Socket | apply TraceInv_new_Socket]).
  pose proof (ti_trace w HT) as Hwf.
  apply in_split in Hin. destruct Hin as (pre & post & Ht).
  rewrite Ht in Hwf. apply well_formed_at in Hwf. simpl in Hwf.
  apply andb_true_iff in Hwf. destruct Hwf as [Hwf Hsz].
  apply andb_true_iff in Hwf. destruct Hwf as [_ Hf].
  apply Nat.eqb_eq in Hsz. apply orb_true_iff in Hf.
  split; [|exact Hsz].
  destruct Hf as [Hf|Hf]; apply String.eqb_eq in Hf; auto.
Qed.

Lemma message_events_witness :
  let inputs := [CallBind [VNum 41234]; HostSettle 0 (Resolved ["0.0.0.0"]);
                 HostSettle 0 (Created 1);
                 PumpMessage 1 ["h"%byte; "i"%byte] "192.0.2.7" 7 5353] in
  In (EmitMessage ["h"%byte; "i"%byte] "192.0.2.7" "udp4" 5353 2)
     (trace (@run plain_engine (createSocket (VStr "udp4") VUndefined) inputs)) /\
  2 = List.length ["h"%byte; "i"%byte].
Proof.
  intros inputs.
  assert (Hin : In (EmitMessage ["h"%byte; "i"%byte] "192.0.2.7" "udp4" 5353 2)
     (trace (@run plain_engine (createSocket (VStr "udp4") VUndefined) inputs)))
    by (simpl; auto 10).
  split; [exact Hin|].
  exact (proj2 (@message_events plain_engine (VStr "udp4") VUndefined inputs
                  _ _ _ _ _ Hin)).
Defined.

(** X4.  However a socket is used: while it is UNBOUND it has no handle; a
    socket with a handle is in state BINDING and has emitted "listening"; and
    while a [Spawn] is running the socket has no handle, so that the handle a
    [Spawn] stores never replaces a live one. *)
Theorem handle_and_bind_state {E : Engine} (type listener : JsVal)
    (inputs : list Input) :
  let w := run (createSocket type listener) inputs in
  (_bindState (socket w) = BIND_STATE_UNBOUND -> _handle (socket w) = None) /\
  (forall h, _handle (socket w) = Some h ->
     _bindState (socket w) = BIND_STATE_BINDING /\ has_bound w = true) /\
  (forall f, In f (frames w) -> spawning (current f) = 1 ->
     _handle (socket w) = None).
Proof.
  intros w.
  assert (HI : Inv w) by (apply Inv_run, Inv_new_Socket).
  assert (Hb : forall h, _handle (socket w) = Some h -> has_bound w = true).
  { intros h Hh. destruct (has_bound w) eqn:Hb; auto.
    rewrite (inv_handle w HI Hb) in Hh. discriminate. }
  split; [|split].
  - intros Hu. destruct (_handle (socket w)) as [h|] eqn:Hh; auto.
    destruct (inv_bound w HI (Hb h eq_refl)) as [_ Hs]. congruence.
  - intros h Hh. split; [apply (inv_bound w HI (Hb h Hh)) | apply (Hb h Hh)].
  - intros f Hin Hsp. destruct (Inv_busy w f HI Hin) as (Hf & _).
    apply (inv_handle w HI). apply (spawning_not_bound w f HI Hf Hsp).
Qed.

Lemma handle_and_bind_state_witness :
  let w := @run plain_engine (createSocket (VStr "udp4") VUndefined)
             [CallBind [VNum 41234]; HostSettle 0 (Resolved ["0.0.0.0"]);
              HostSettle 0 (Created 1)] in
  _handle (socket w) = Some 1 /\
  _bindState (socket w) = BIND_STATE_BINDING /\ has_bound w = true.
Proof.
  intros w. split; [reflexivity|].
  destruct (@handle_and_bind_state plain_engine (VStr "udp4") VUndefined
              [CallBind [VNum 41234]; HostSettle 0 (Resolved ["0.0.0.0"]);
               HostSettle 0 (Created 1)]) as (_ & H & _).
  exact (H 1 eq_refl).
Defined.

(** *** What [send] and [bind] schedule *)

Lemma send_tail_eq (t : Task) (w : World) :
  exists w1,
    bindM (match _bindState (socket w) with
           | BIND_STATE_UNBOUND =>
               bind [VObj [("port", VNum 0); ("exclusive", VBool true)]; VNull]
           | _ => ret tt
           end)
      (fun _ => schedule t) w = schedule t w1.
Proof.
  unfold bindM.
  destruct (_bindState (socket w)) eqn:Hs; simpl; eauto.
  destruct (bind_unbound
              [VObj [("port", VNum 0); ("exclusive", VBool true)]; VNull] w Hs)
    as (a & p & Hb).
  pose proof (schedule_ok (Spawn a p)
    (bind_prologue
       [VObj [("port", VNum 0); ("exclusive", VBool true)]; VNull] w)) as Hok.
  rewrite <- Hb in Hok.
  destruct (bind _ w) as [[[]|e] w1]; simpl in *; [eauto | discriminate].
Qed.

Lemma loopback_string (s : Socket) :
  exists a, loopback s = VStr a /\ a <> EmptyString.
Proof.
  unfold loopback. destruct (is_udp4 (type s)); eexists; split;
    try reflexivity; discriminate.
Qed.

(** [send] with its checks laid out. *)
Lemma send_eq {E : Engine} (buffer : JsVal) (args : list JsVal) (w : World) :
  send buffer args w =
  match send_shape buffer args with
  | Throw e => (Throw e, w)
  | Ok (b, p, a, c) =>
      match send_list b with
      | Throw e => (Throw e, w)
      | Ok l =>
          let tail address callback :=
            bindM (match _bindState (socket w) with
                   | BIND_STATE_UNBOUND =>
                       bind [VObj [("port", VNum 0); ("exclusive", VBool true)];
                             VNull]
                   | _ => ret tt
                   end)
              (fun _ => schedule
                 (Send match l with [] => [Buffer_alloc0] | _ :: _ => l end
                    (to_uint32 p) (js_or address (loopback (socket w)))
                    callback)) w in
          if ((to_uint32 p =? 0) || (65535 <? to_uint32 p))%Z
          then (Throw (ERR_SOCKET_BAD_PORT (to_uint32 p)), w)
          else if is_function a then tail VUndefined a
          else if truthy a && negb (is_string a)
          then (Throw (ERR_INVALID_ARG_TYPE "address"), w)
          else tail a (if is_function c then c else VUndefined)
      end
  end.
Proof.
  unfold send, bindM, lift.
  destruct (send_shape buffer args) as [[[[b p] a] c]|e]; [|reflexivity].
  destruct (send_list b) as [l|e]; [|reflexivity].
  destruct ((to_uint32 p =? 0)%Z || (65535 <? to_uint32 p)%Z); [reflexivity|].
  destruct (is_function a); [reflexivity|].
  destruct (truthy a && negb (is_string a)); reflexivity.
Qed.

(** X5.  Whatever its arguments, a [send] that returns has scheduled one
    [Send] task that is normal: its list of buffers is not empty (an empty
    list has become one empty buffer), its port lies in 1..65535, its host is
    a non-empty string (the loopback address when none was given) and its
    callback is a function or undefined. *)
Theorem send_schedules_normal_task {E : Engine} (w : World) (buffer : JsVal)
    (args : list JsVal) :
  fst (send buffer args w) = Ok tt ->
  exists t w1, normal_send t /\ send buffer args w = schedule t w1.
Proof.
  rewrite send_eq.
  destruct (send_shape buffer args) as [[[[b p] a] c]|e]; [|discriminate].
  destruct (send_list b) as [l|e]; [|discriminate].
  cbv zeta.
  destruct ((to_uint32 p =? 0)%Z || (65535 <? to_uint32 p)%Z) eqn:Hp;
    [discriminate|].
  apply orb_false_iff in Hp. destruct Hp as [Hp0 Hp1].
  apply Z.eqb_neq in Hp0. apply Z.ltb_ge in Hp1.
  pose proof (to_uint32_range p) as Hr.
  assert (Hl : match l with [] => [Buffer_alloc0] | _ :: _ => l end <> [])
    by (destruct l; discriminate).
  destruct (loopback_string (socket w)) as (lb & Hlb & Hlbn).
  destruct (is_function a) eqn:Hfa.
  - intros _.
    match goal with |- context [schedule ?t] =>
      destruct (send_tail_eq t w) as [w1 Hw1]; exists t, w1 end.
    split; [|exact Hw1].
    simpl. repeat split; auto; try lia.
    + exists lb. unfold js_or. simpl. auto.
    + right. destruct a; try discriminate. eauto.
  - destruct (truthy a && negb (is_string a)) eqn:Hta; [discriminate|].
    intros _.
    match goal with |- context [schedule ?t] =>
      destruct (send_tail_eq t w) as [w1 Hw1]; exists t, w1 end.
    split; [|exact Hw1].
    simpl. repeat split; auto; try lia.
    + unfold js_or. destruct (truthy a) eqn:Ht; [|eauto].
      destruct a; simpl in *; try discriminate.
      exists s. split; auto. intros ->. discriminate.
    + destruct c; simpl; eauto.
Qed.

Lemma send_schedules_normal_task_witness :
  let w := createSocket (VStr "udp6") VUndefined in
  fst (@send plain_engine (VArr []) [VNum 53] w) = Ok tt /\
  exists t w1,
    normal_send t /\
    @send plain_engine (VArr []) [VNum 53] w = schedule t w1.
Proof.
  intros w. split; [reflexivity|].
  exact (@send_schedules_normal_task plain_engine w (VArr []) [VNum 53] eq_refl).
Defined.

Lemma lookup_field_other (k name : string) (e1 e2 : JsVal)
    (before after : list (string * JsVal)) :
  String.eqb k name = false ->
  lookup_field (before ++ (k, e1) :: after) name =
  lookup_field (before ++ (k, e2) :: after) name.
Proof.
  intros Hk. induction before as [|[k0 v0] before IH]; simpl.
  - rewrite Hk. reflexivity.
  - rewrite IH. reflexivity.
Qed.

(** What [bind] schedules. *)
Lemma bind_schedules (w : World) (args : list JsVal) :
  _bindState (socket w) = BIND_STATE_UNBOUND ->
  let options := arg args 0 in
  let given :=
    if is_object options then get_prop options "address"
    else if is_function (arg args 1) then VStr EmptyString else arg args 1 in
  let port := if is_object options then get_prop options "port" else options in
  exists a,
    bind args w = schedule (Spawn a port) (bind_prologue args w) /\
    truthy a = true /\
    (truthy given = true -> a = given) /\
    (truthy given = false ->
     a = if is_udp4 (type (socket w)) then VStr "0.0.0.0" else VStr "::").
Proof.
  intros Hs. cbv zeta.
  unfold bind, bind_prologue, bindM, this, effect. simpl. rewrite Hs.
  assert (Hw : truthy (wildcard (socket w)) = true)
    by (unfold wildcard; destruct (is_udp4 (type (socket w))); reflexivity).
  destruct (is_object (arg args 0)); simpl; unfold js_or.
  - destruct (truthy (get_prop (arg args 0) "address")) eqn:Ht; simpl;
      rewrite ?Ht; eexists;
      (split; [destruct (is_function (last args VUndefined)); reflexivity|]);
      repeat split; auto; try discriminate.
  - destruct (is_function (arg args 1)); simpl.
    + eexists;
        (split; [destruct (is_function (last args VUndefined)); reflexivity|]);
        repeat split; auto; try discriminate.
    + destruct (truthy (arg args 1)) eqn:Ht; eexists;
        (split; [destruct (is_function (last args VUndefined)); reflexivity|]);
        repeat split; auto; try discriminate.
Qed.

(** X6.  A [bind] on an UNBOUND socket schedules one [Spawn] whose address is
    never falsy: with no address, an empty one or a function in its place, the
    task gets the wildcard address, "0.0.0.0" when the socket's type is the
    string "udp4" and "::" for every other type; the port goes into the task
    as it was given. *)
Theorem bind_spawn_address (w : World) (args : list JsVal) :
  _bindState (socket w) = BIND_STATE_UNBOUND ->
  let options := arg args 0 in
  let given :=
    if is_object options then get_prop options "address"
    else if is_function (arg args 1) then VStr EmptyString else arg args 1 in
  let port := if is_object options then get_prop options "port" else options in
  exists a,
    bind args w = schedule (Spawn a port) (bind_prologue args w) /\
    truthy a = true /\
    (truthy given = true -> a = given) /\
    (truthy given = false ->
     a = if is_udp4 (type (socket w)) then VStr "0.0.0.0" else VStr "::").
Proof. exact (bind_schedules w args). Qed.

Lemma bind_spawn_address_witness :
  let w := createSocket (VStr "udp5") VUndefined in
  _bindState (socket w) = BIND_STATE_UNBOUND /\
  workQueue (socket (snd (bind [VNum 41234; VFun 3] w))) =
  [Spawn (VStr "::") (VNum 41234)].
Proof.
  intros w. split; [reflexivity|].
  destruct (bind_spawn_address w [VNum 41234; VFun 3] eq_refl)
    as (a & Hb & _ & _ & Ha).
  rewrite Hb, (Ha eq_refl). reflexivity.
Defined.

(** X7.  The [exclusive] option of [bind] has no effect: two calls whose
    option objects differ in nothing but the value of [exclusive] give the
    same result and leave the same world. *)
Theorem bind_ignores_exclusive (w : World) (e1 e2 : JsVal)
    (before after : list (string * JsVal)) (rest : list JsVal) :
  bind (VObj (before ++ ("exclusive", e1) :: after) :: rest) w =
  bind (VObj (before ++ ("exclusive", e2) :: after) :: rest) w.
Proof.
  unfold bind, bindM, this, effect, arg.
  destruct rest as [|r rest]; simpl;
    rewrite (lookup_field_other "exclusive" "address" e1 e2) by reflexivity;
    rewrite (lookup_field_other "exclusive" "port" e1 e2) by reflexivity;
    reflexivity.
Qed.



(** X9.  On a socket with no live handle, [address()] and the four multicast
    methods that use the handle throw not-running before they look at their
    arguments and without a call to the host; [setMulticastTTL] alone returns.
    A socket has no live handle, in particular, as long as it has not emitted
    "listening". *)
Theorem not_running_without_handle {E : Engine} (type listener : JsVal)
    (inputs : list Input) (host : HandleHost) (bound : Handle -> SocketAddress)
    (a b : JsVal) :
  let w := run (createSocket type listener) inputs in
  (has_bound w = false -> _handle (socket w) = None) /\
  (_handle (socket w) = None ->
   let s := socket w in
   let not_running := Raises (Plain ERR_SOCKET_DGRAM_NOT_RUNNING) in
   address bound s = Throw ERR_SOCKET_DGRAM_NOT_RUNNING /\
   setMulticastLoopback host a s = ([], not_running) /\
   setMulticastInterface host a s = ([], not_running) /\
   addMembership host a b s = ([], not_running) /\
   dropMembership host a b s = ([], not_running) /\
   setMulticastTTL a s = ([], Returns tt)).
Proof.
  intros w. split.
  - apply inv_handle, Inv_run, Inv_new_Socket.
  - intros Hh. cbv zeta.
    unfold address, setMulticastLoopback, setMulticastInterface, addMembership,
      dropMembership, setMulticastTTL, _healthCheck.
    rewrite Hh. auto 10.
Qed.

Lemma not_running_without_handle_witness :
  let w := @run plain_engine (createSocket (VStr "udp4") VUndefined)
             [CallBind [VNum 41234]; HostSettle 0 (Resolved ["0.0.0.0"])] in
  has_bound w = false /\
  addMembership (fun _ _ => None) (VStr EmptyString) VUndefined (socket w) =
  ([], Raises (Plain ERR_SOCKET_DGRAM_NOT_RUNNING)).
Proof.
  intros w. split; [reflexivity|].
  destruct (@not_running_without_handle plain_engine (VStr "udp4") VUndefined
              [CallBind [VNum 41234]; HostSettle 0 (Resolved ["0.0.0.0"])]
              (fun _ _ => None) (fun _ => mkSocketAddress VUndefined VUndefined 0)
              (VStr EmptyString) VUndefined) as [H1 H2].
  destruct (H2 (H1 eq_refl)) as (_ & _ & _ & H & _).
  exact H.
Defined.

(** X10.  With a live handle, [addMembership] and [dropMembership] called
    with a falsy multicast address throw the missing-argument error for
    "multicastAddress" and do not call the host; [setMulticastInterface]
    called with anything but a string throws invalid-argument-type for
    "interfaceAddress" and does not call the host. *)
Theorem multicast_argument_checks (host : HandleHost) (s : Socket) (h : Handle)
    (multicastAddress interfaceAddress : JsVal) :
  _handle s = Some h ->
  (truthy multicastAddress = false ->
   addMembership host multicastAddress interfaceAddress s =
     ([], Raises (ERR_MISSING_ARGS ["multicastAddress"])) /\
   dropMembership host multicastAddress interfaceAddress s =
     ([], Raises (ERR_MISSING_ARGS ["multicastAddress"]))) /\
  (is_string interfaceAddress = false ->
   setMulticastInterface host interfaceAddress s =
     ([], Raises (Plain (ERR_INVALID_ARG_TYPE "interfaceAddress")))).
Proof.
  intros Hh. unfold addMembership, dropMembership, setMulticastInterface,
    _healthCheck. rewrite Hh.
  split; intros ->; auto.
Qed.

Lemma multicast_argument_checks_witness :
  let s := mkSocket (Some 1) true BIND_STATE_BINDING false LibDns [] (VStr "udp4") in
  addMembership (fun _ _ => None) VUndefined (VStr "192.0.2.1") s =
  ([], Raises (ERR_MISSING_ARGS ["multicastAddress"])).
Proof.
  intros s.
  destruct (multicast_argument_checks (fun _ _ => None) s 1 VUndefined
              (VStr "192.0.2.1") eq_refl) as [H _].
  exact (proj1 (H eq_refl)).
Defined.

(** X11.  With a live handle and arguments that pass the checks, each of the
    four multicast methods makes exactly one call, to that handle:
    [addMembership] passes the interface address on as it is,
    [dropMembership] passes undefined for a falsy one.  When the host returns
    the method returns; when the host throws, the method throws a system error
    whose syscall is the name of the method, whose code (and errno) is the
    message of the host's error, and whose message is the two joined by a
    space: the host's own error never comes out. *)
Theorem multicast_host_calls (host : HandleHost) (s : Socket) (h : Handle)
    (flag multicastAddress interfaceAddress : JsVal) (i : string) :
  _handle s = Some h -> truthy multicastAddress = true ->
  let outcome call syscall : Direct unit :=
    ([(h, call)],
     match host h call with
     | None => Returns tt
     | Some m => Raises (SystemError (syscall ++ " " ++ m)%string m syscall)
     end) in
  setMulticastLoopback host flag s =
    outcome (SetMulticastLoopback flag) "setMulticastLoopback" /\
  setMulticastInterface host (VStr i) s =
    outcome (SetMulticastInterface (VStr i)) "setMulticastInterface" /\
  addMembership host multicastAddress interfaceAddress s =
    outcome (JoinMulticast multicastAddress interfaceAddress) "addMembership" /\
  dropMembership host multicastAddress interfaceAddress s =
    outcome (LeaveMulticast multicastAddress
               (if truthy interfaceAddress then interfaceAddress else VUndefined))
      "dropMembership" /\
  (forall m call syscall,
     host h call = Some m ->
     exists e, snd (guarded host h call syscall) = Raises e /\
               errno e = Some m).
Proof.
  intros Hh Ht. cbv zeta.
  unfold setMulticastLoopback, setMulticastInterface, addMembership,
    dropMembership, _healthCheck, guarded, errnoException, js_or.
  rewrite Hh, Ht. simpl.
  repeat split;
    try (match goal with |- context [host h ?c] => destruct (host h c) end;
         reflexivity).
  intros m call syscall Hm. rewrite Hm. eexists. split; reflexivity.
Qed.

Lemma multicast_host_calls_witness :
  let s := mkSocket (Some 1) true BIND_STATE_BINDING false LibDns [] (VStr "udp4") in
  let host : HandleHost := fun _ _ => Some "NS_ERROR_FAILURE" in
  dropMembership host (VStr "224.0.0.251") (VStr EmptyString) s =
  ([(1, LeaveMulticast (VStr "224.0.0.251") VUndefined)],
   Raises (SystemError "dropMembership NS_ERROR_FAILURE" "NS_ERROR_FAILURE"
             "dropMembership")).
Proof.
  intros s host.
  destruct (multicast_host_calls host s 1 VUndefined (VStr "224.0.0.251")
              (VStr EmptyString) EmptyString eq_refl eq_refl)
    as (_ & _ & _ & H & _).
  exact H.
Defined.

(** X12.  With a live handle, [address()] returns the address of the handle
    twice, as [address] and as [host], its port, and a family that is "udp6"
    when the handle's family code is 2 and "udp4" for every other code. *)
Theorem address_of_live_handle (bound : Handle -> SocketAddress) (s : Socket)
    (h : Handle) :
  _handle s = Some h ->
  exists info,
    address bound s = Ok info /\
    ai_address info = sa_address (bound h) /\
    ai_host info = sa_address (bound h) /\
    ai_port info = sa_port (bound h) /\
    (ai_family info = "udp6" <-> sa_family (bound h) = 2%Z) /\
    (ai_family info = "udp4" <-> sa_family (bound h) <> 2%Z).
Proof.
  intros Hh. unfold address, _healthCheck. rewrite Hh.
  eexists. split; [reflexivity|]. simpl. repeat split; auto;
    unfold toNodeFamily; destruct (Z.eqb_spec (sa_family (bound h)) 2);
    intros; try congruence; try discriminate; auto.
Qed.

Lemma address_of_live_handle_witness :
  let s := mkSocket (Some 1) true BIND_STATE_BINDING false LibDns [] (VStr "udp6") in
  let bound := fun _ : Handle => mkSocketAddress (VStr "::1") (VNum 5353) 2 in
  exists info,
    address bound s = Ok info /\ ai_host info = VStr "::1".
Proof.
  intros s bound.
  destruct (address_of_live_handle bound s 1 eq_refl)
    as (info & H1 & _ & H2 & _).
  exists info. split; [exact H1 | exact H2].
Defined.

(** X13.  Once the loop of [awake] has been ended by a rejected task, with
    [isIdle] left false, the socket stays so whatever happens: the methods
    still return and append their tasks to the queue, but no task is started
    any more, no promise is awaited, and the handle is not touched. *)
Theorem wedged_forever {E : Engine} (w : World) (later : list Input) :
  wedged w ->
  let w' := run w later in
  wedged w' /\ started w' = started w /\
  _handle (socket w') = _handle (socket w) /\
  (forall n o, step w' (HostSettle n o) = None) /\
  (forall n, step w' (LoopResume n) = None).
Proof.
  intros Hw. cbv zeta.
  assert (Hstuck : forall w0, wedged w0 ->
            (forall n o, step w0 (HostSettle n o) = None) /\
            (forall n, step w0 (LoopResume n) = None)).
  { intros w0 [Hf _]. split; intros; simpl; rewrite Hf; destruct n; reflexivity. }
  assert (Hsched : forall t w0, wedged w0 ->
            wedged (snd (schedule t w0)) /\
            started (snd (schedule t w0)) = started w0 /\
            _handle (socket (snd (schedule t w0))) = _handle (socket w0)).
  { intros t w0 [Hf Hi]. rewrite schedule_busy by exact Hi.
    unfold wedged. simpl. auto. }
  assert (Hbind : forall args w0, wedged w0 ->
            wedged (snd (bind args w0)) /\
            started (snd (bind args w0)) = started w0 /\
            _handle (socket (snd (bind args w0))) = _handle (socket w0)).
  { intros args w0 Hw0.
    destruct (_bindState (socket w0)) eqn:Hs;
      try (rewrite bind_bound by congruence; auto).
    destruct (bind_unbound args w0 Hs) as (a & p & ->).
    assert (Hp : wedged (bind_prologue args w0) /\
                 started (bind_prologue args w0) = started w0 /\
                 _handle (socket (bind_prologue args w0)) = _handle (socket w0)).
    { unfold bind_prologue, wedged in *.
      destruct (is_function (last args VUndefined)); simpl; tauto. }
    destruct Hp as (Hp & <- & <-). apply Hsched, Hp. }
  revert w Hw. induction later as [|i later IH]; intros w Hw; simpl.
  - split; auto. split; auto. split; auto. apply Hstuck, Hw.
  - destruct (step w i) as [w1|] eqn:Hs; [|apply IH, Hw].
    assert (H1 : wedged w1 /\ started w1 = started w /\
                 _handle (socket w1) = _handle (socket w)).
    { destruct i; simpl in Hs.
      - injection Hs as <-. apply Hbind, Hw.
      - injection Hs as <-.
        destruct (send_cases buffer args w) as [(e & ->)|(l & p & h & c & ->)];
          [auto|].
        destruct (_bindState (socket w)); try (apply Hsched, Hw).
        destruct (Hbind [VObj [("port", VNum 0); ("exclusive", VBool true)]; VNull]
                    w Hw) as (Hb & <- & <-).
        apply Hsched, Hb.
      - injection Hs as <-. unfold close, bindM, effect, ret.
        destruct (is_function callback); simpl; [|apply Hsched, Hw].
        assert (Hl : wedged (log (AddListener "close" callback false) w))
          by exact Hw.
        apply (Hsched Close _ Hl).
      - destruct (Hstuck w Hw) as [H _]. simpl in H. rewrite H in Hs. discriminate.
      - destruct (Hstuck w Hw) as [_ H]. simpl in H. rewrite H in Hs. discriminate.
      - destruct (existsb (Nat.eqb h) (pumps w)); [|discriminate].
        injection Hs as <-. auto.
      - destruct (existsb (Nat.eqb h) (pumps w)); [|discriminate].
        injection Hs as <-. auto. }
    destruct H1 as (Hw1 & <- & <-). apply IH, Hw1.
Qed.

Lemma wedged_forever_witness :
  let w := @run plain_engine (createSocket (VStr "udp4") VUndefined)
             [CallBind [VNum 41234]; HostSettle 0 (Rejected (HostFailure "EAI"));
              LoopResume 0;
              CallSend (VStr "a") [VNum 8000; VStr "unknown.invalid"];
              HostSettle 0 (Resolved ["0.0.0.0"]); HostSettle 0 (Created 1);
              LoopResume 0;
              HostSettle 0 (Rejected (HostFailure "ENOTFOUND")); LoopResume 0] in
  wedged w /\
  started (@run plain_engine w [CallClose VUndefined; CallSend (VStr "b") [VNum 8000]])
  = started w.
Proof.
  intros w.
  assert (Hw : wedged w) by (split; reflexivity).
  split; [exact Hw|].
  destruct (@wedged_forever plain_engine w
              [CallClose VUndefined; CallSend (VStr "b") [VNum 8000]] Hw)
    as (_ & H & _).
  exact H.
Defined.

(** *** The loop of [Send.perform] *)

Lemma transmit_step {E : Engine} (w : World) (k : nat) (h : Handle)
    (host : option string) (port : Z) (rest : list Uint8Array) (cb : JsVal)
    (o : Settle) (p : Perform) (w1 : World) :
  frames w = [mkFrame k (SendTransmit h host port rest cb)] ->
  resume (SendTransmit h host port rest cb) o w = Some (p, w1) ->
  step w (HostSettle 0 o) = Some (set_frames [mkFrame k p] w1).
Proof.
  intros Hf Hres. unfold step. rewrite Hf. cbn [nth_error current index].
  rewrite Hres, (resume_frames _ _ _ _ _ Hres), Hf. reflexivity.
Qed.

(** X14.  While a [Send] task is transmitting, with [rest] the buffers
    still to go after the one under way: after [n] transmissions have
    succeeded ([n] at most the length of [rest]), exactly the first [n]
    buffers of [rest] have been handed to the handle, in list order, one per
    settlement.  If then the transmission under way fails, no further buffer
    is sent: the callback, when there is one, is called once with the error,
    and the task resolves. *)
Theorem transmissions_in_order {E : Engine} (n : nat) :
  forall (rest : list Uint8Array) (w : World) (k : nat) (h : Handle)
         (host : option string) (port : Z) (cb : JsVal) (e : JsError),
  frames w = [mkFrame k (SendTransmit h host port rest cb)] ->
  n <= List.length rest ->
  let payload b := HandleSend h host port (arrayBuffer b) in
  let w1 := run w (repeat (HostSettle 0 Sent) n) in
  trace w1 = trace w ++ map payload (firstn n rest) /\
  frames w1 = [mkFrame k (SendTransmit h host port (skipn n rest) cb)] /\
  let w2 := run w1 [HostSettle 0 (Rejected e)] in
  trace w2 = trace w1 ++ (if truthy cb then [Invoke cb (Some e)] else []) /\
  frames w2 = [mkFrame k (Settled None)].
Proof.
  induction n as [|n IH]; intros rest w k h host port cb e Hf Hn payload.
  - simpl repeat. cbn [run firstn map skipn]. rewrite app_nil_r.
    split; [reflexivity|]. split; [exact Hf|].
    assert (Hres : resume (SendTransmit h host port rest cb) (Rejected e) w =
              Some (Settled None,
                    if truthy cb then log (Invoke cb (Some e)) w else w))
      by reflexivity.
    rewrite (transmit_step w k _ _ _ _ _ _ _ _ Hf Hres).
    destruct (truthy cb); simpl; rewrite ?app_nil_r; auto.
  - destruct rest as [|b rest]; [simpl in Hn; lia|].
    assert (Hres : resume (SendTransmit h host port (b :: rest) cb) Sent w =
              Some (SendTransmit h host port rest cb, log (payload b) w))
      by reflexivity.
    simpl repeat. cbn [run].
    rewrite (transmit_step w k _ _ _ _ _ _ _ _ Hf Hres).
    assert (Hf' : frames (set_frames [mkFrame k (SendTransmit h host port rest cb)]
                            (log (payload b) w)) =
                  [mkFrame k (SendTransmit h host port rest cb)]) by reflexivity.
    assert (Hn' : n <= List.length rest) by (simpl in Hn; lia).
    destruct (IH rest _ k h host port cb e Hf' Hn') as (Ht & Hfr & Hfail).
    fold payload in Ht. split; [|split; [exact Hfr | exact Hfail]].
    rewrite Ht. simpl. rewrite <- app_assoc. reflexivity.
Qed.

Lemma transmissions_in_order_witness :
  let w := @run plain_engine (createSocket (VStr "udp4") VUndefined)
             [CallBind [VNum 41234]; HostSettle 0 (Resolved ["0.0.0.0"]);
              HostSettle 0 (Created 1); LoopResume 0;
              CallSend (VArr [VStr "a"; VStr "b"; VStr "c"])
                [VNum 8000; VStr "peer.example"; VFun 5];
              HostSettle 0 (Resolved ["192.0.2.7"])] in
  let rest := [Buffer_from "b"; Buffer_from "c"] in
  (frames w = [mkFrame 1 (SendTransmit 1 (Some "192.0.2.7") 8000 rest (VFun 5))] /\
   1 <= List.length rest) /\
  trace (@run plain_engine w [HostSettle 0 Sent; HostSettle 0 (Rejected (HostFailure "x"))]) =
  trace w ++ [HandleSend 1 (Some "192.0.2.7") 8000 ["b"%byte];
              Invoke (VFun 5) (Some (HostFailure "x"))].
Proof.
  intros w rest.
  assert (Hf : frames w =
               [mkFrame 1 (SendTransmit 1 (Some "192.0.2.7") 8000 rest (VFun 5))])
    by reflexivity.
  assert (Hn : 1 <= List.length rest) by (simpl; lia).
  split; [split; [exact Hf | exact Hn]|].
  destruct (@transmissions_in_order plain_engine 1 rest w 1 1
              (Some "192.0.2.7") 8000%Z (VFun 5) (HostFailure "x") Hf Hn)
    as (Ht & _ & Hfail & _).
  change (@run plain_engine w
            [HostSettle 0 Sent; HostSettle 0 (Rejected (HostFailure "x"))])
    with (@run plain_engine (@run plain_engine w (repeat (HostSettle 0 Sent) 1))
            [HostSettle 0 (Rejected (HostFailure "x"))]).
  rewrite Hfail, Ht. rewrite <- app_assoc. reflexivity.
Defined.



(** *** Slices and payloads *)

Lemma to_int32_small (n : Z) :
  (0 <= n < 2147483648)%Z -> to_int32 n = n.
Proof.
  intros H. unfold to_int32, two32. rewrite Z.mod_small by lia. lia.
Qed.

Lemma firstn_skipn_firstn {A} (l : list A) (o n len : nat) :
  o + n <= len ->
  firstn n (skipn o (firstn len l)) = firstn n (skipn o l).
Proof.
  intros H. rewrite skipn_firstn_comm, firstn_firstn.
  replace (Nat.min n (len - o)) with n by lia. reflexivity.
Qed.

(** X16.  What goes out for a call in the offset/length shape.  [Send.perform]
    hands the handle the [.buffer] of each list element, the store behind the
    view.  For a plain [Uint8Array] the slice is a copy, and the payload is
    the bytes from [offset] on, [length] of them.  For a [Buffer] (and for a
    string, which becomes one) the slice is a view on the same store: it shows
    the right bytes, but the payload is the whole store of the buffer the
    caller passed, whatever offset and length are. *)
Theorem offset_length_and_payload {E : Engine} (b : Uint8Array)
    (offset length : JsVal) (o n : nat) :
  (forall h host port rest cb w,
     snd (transmit h host port (b :: rest) cb w) =
     log (HandleSend h host port (arrayBuffer b)) w) /\
  (isBuffer b = true ->
   exists v, sliceBuffer (VBytes b) offset length = Ok v /\
             arrayBuffer v = arrayBuffer b) /\
  (forall s, exists v, sliceBuffer (VStr s) offset length = Ok v /\
                       arrayBuffer v = list_byte_of_string s) /\
  (o + n <= byteLength b -> (Z.of_nat (byteLength b) < 2147483648)%Z ->
   exists v,
     sliceBuffer (VBytes b) (VNum (Z.of_nat o)) (VNum (Z.of_nat n)) = Ok v /\
     contents v = firstn n (skipn o (contents b)) /\
     (isBuffer b = false -> arrayBuffer v = firstn n (skipn o (contents b)))).
Proof.
  split; [reflexivity|]. split; [|split].
  - intros Hb. unfold sliceBuffer, u8_slice. rewrite Hb.
    eexists. split; reflexivity.
  - intros s. unfold sliceBuffer, u8_slice. simpl.
    eexists. split; reflexivity.
  - intros Hon Hlen. unfold sliceBuffer, u8_slice, to_uint32. simpl.
    rewrite !Z.mod_small by (unfold two32; lia).
    eexists. split; [reflexivity|].
    destruct (isBuffer b) eqn:Hb.
    + split; [|discriminate].
      rewrite !to_int32_small by lia.
      replace (Z.of_nat o <? 0)%Z with false by (symmetry; apply Z.ltb_ge; lia).
      replace (Z.of_nat o + Z.of_nat n <? 0)%Z with false
        by (symmetry; apply Z.ltb_ge; lia).
      rewrite !Z.min_l by lia. rewrite Z.max_r by lia.
      unfold contents. simpl.
      replace (Z.to_nat (Z.of_nat o + Z.of_nat n - Z.of_nat o)) with n by lia.
      rewrite Nat2Z.id.
      rewrite (firstn_skipn_firstn _ o n (byteLength b)) by lia.
      rewrite skipn_skipn. f_equal. f_equal. lia.
    + rewrite !Z.min_l by lia. rewrite Z.max_r by lia.
      replace (Z.to_nat (Z.of_nat o + Z.of_nat n - Z.of_nat o)) with n by lia.
      rewrite Nat2Z.id.
      assert (Hc : contents
                (mkU8 false (firstn n (skipn o (contents b))) 0 n) =
              firstn n (skipn o (contents b))).
      { unfold contents at 1. simpl. apply firstn_all2. apply firstn_le_length. }
      split; [exact Hc | reflexivity].
Qed.

Lemma offset_length_and_payload_witness :
  let b := Buffer_from "hello" in
  (isBuffer b = true /\ 1 + 3 <= byteLength b) /\
  exists v,
    @sliceBuffer plain_engine (VBytes b) (VNum 1) (VNum 3) = Ok v /\
    contents v = ["e"%byte; "l"%byte; "l"%byte] /\
    arrayBuffer v = list_byte_of_string "hello".
Proof.
  intros b.
  assert (H1 : 1 + 3 <= byteLength b) by (simpl; lia).
  assert (H2 : (Z.of_nat (byteLength b) < 2147483648)%Z) by (simpl; lia).
  split; [split; [reflexivity | exact H1]|].
  destruct (@offset_length_and_payload plain_engine b (VNum 1) (VNum 3) 1 3)
    as (_ & Hstore & _ & Hview).
  destruct (Hview H1 H2) as (v & Hv & Hc & _).
  destruct (Hstore eq_refl) as (v' & Hv' & Hs).
  change (VNum (Z.of_nat 1)) with (VNum 1) in Hv.
  change (VNum (Z.of_nat 3)) with (VNum 3) in Hv.
  rewrite Hv in Hv'. injection Hv' as <-.
  exists v. split; [exact Hv|]. split; [exact Hc | exact Hs].
Defined.

(** X17.  [fixBufferList] accepts a list exactly when every element is a
    string or a byte array, and then returns a list with one buffer per
    element, in order: the encoded string for a string, the array itself for a
    byte array.  One element of another kind makes it return null for the
    whole list. *)
Theorem fixBufferList_elementwise (l : list JsVal) :
  match fixBufferList l with
  | Some newlist =>
      forallb is_buffer_like l = true /\ map Some newlist = map fixBuffer l
  | None => forallb is_buffer_like l = false
  end.
Proof.
  induction l as [|v l IH]; simpl; [auto|].
  destruct v; simpl; auto;
    destruct (fixBufferList l); simpl; auto;
    destruct IH as [IH1 IH2]; rewrite IH2; auto.
Qed.

(** X18.  The constructor fixes [type], [_reuseAddr] and the resolver, and
    nothing that happens to the socket afterwards changes them.  Built from an
    options object the socket takes [options.type], [!!options.reuseAddr] and,
    when [options.lookup] is truthy, a resolver made from it; built from
    anything else it keeps the argument as its type, does not reuse addresses
    and resolves with [lib.dns].  The type is never checked. *)
Theorem constructor_options_fixed {E : Engine} (options listener : JsVal)
    (inputs : list Input) :
  let w := run (createSocket options listener) inputs in
  _reuseAddr (socket w) = reuse_option options /\
  type (socket w) = type_option options /\
  dns (socket w) =
    (if is_object options && truthy (get_prop options "lookup")
     then FromNodeLookup (get_prop options "lookup") else LibDns).
Proof.
  intros w.
  pose proof (static_run inputs (createSocket options listener)) as H.
  fold w in H. unfold createSocket in H. rewrite static_new_Socket in H.
  unfold static in H. injection H as H1 H2 H3. auto.
Qed.

(** X19.  [bind] on an idle UNBOUND socket, when the lookup and the creation
    of the handle succeed: the address of the [Spawn] is resolved inside the
    call; the handle is asked for the first resolved address, with the
    socket's [reuseAddr], and with the port only when one was given that is
    not 0 (no port asks the host for any free one); the handle is stored,
    "listening" is emitted with the task, the message pump of the handle is
    started; and when the loop is resumed the socket is idle again, in state
    BINDING, with an empty queue. *)
Theorem bind_then_listening {E : Engine} (type listener : JsVal)
    (inputs : list Input) (args : list JsVal) (addresses : list string)
    (h : Handle) :
  let w := run (createSocket type listener) inputs in
  isIdle (socket w) = true ->
  _bindState (socket w) = BIND_STATE_UNBOUND ->
  let port :=
    if is_object (arg args 0) then get_prop (arg args 0) "port"
    else arg args 0 in
  let registered :=
    if is_function (last args VUndefined)
    then [AddListener "listening" (last args VUndefined) true] else [] in
  exists a,
    truthy a = true /\
    let w1 := run w [CallBind args; HostSettle 0 (Resolved addresses)] in
    trace w1 =
      trace w ++ registered ++
      [DnsResolve a;
       UdpCreate (hd_error addresses) (if has_port port then Some port else None)
         (_reuseAddr (socket w))] /\
    let w2 := run w1 [HostSettle 0 (Created h); LoopResume 0] in
    trace w2 = trace w1 ++ [EmitListening (Spawn a port); HandleMessages h] /\
    _handle (socket w2) = Some h /\
    pumps w2 = pumps w ++ [h] /\
    isIdle (socket w2) = true /\
    _bindState (socket w2) = BIND_STATE_BINDING /\
    workQueue (socket w2) = [] /\ frames w2 = [].
Proof.
  intros w Hi Hu port registered.
  assert (HI : Inv w) by (apply Inv_run, Inv_new_Socket).
  destruct (inv_idle w HI Hi) as [Hf Hq].
  destruct (bind_schedules w args Hu) as (a & Hb & Ha & _).
  fold port in Hb.
  exists a. split; [exact Ha|]. cbv zeta.
  assert (Hcall : step w (CallBind args) =
            Some (snd (schedule (Spawn a port) (bind_prologue args w))))
    by (simpl; rewrite Hb; reflexivity).
  unfold run. rewrite Hcall. clear Hcall Hb HI.
  unfold bind_prologue. subst registered.
  destruct w as [[hd idle bs ra d q ty] fs ps tr en st]. simpl in *. subst.
  destruct (is_function (last args VUndefined)); simpl;
    unfold schedule, bindM, effect, this; simpl;
    unfold awake, drain; simpl;
    destruct (has_port port); simpl; unfold drain; simpl;
    rewrite <- ?app_assoc; simpl; auto 10.
Qed.

Lemma bind_then_listening_witness :
  let w := @run plain_engine (createSocket (VStr "udp4") VUndefined) [] in
  (isIdle (socket w) = true /\ _bindState (socket w) = BIND_STATE_UNBOUND) /\
  exists a,
    trace (@run plain_engine w
             [CallBind [VNum 0]; HostSettle 0 (Resolved ["0.0.0.0"])]) =
    [DnsResolve a; UdpCreate (Some "0.0.0.0") None false].
Proof.
  intros w. split; [split; reflexivity|].
  destruct (@bind_then_listening plain_engine (VStr "udp4") VUndefined []
              [VNum 0] ["0.0.0.0"] 1 eq_refl eq_refl) as (a & _ & H & _).
  exists a. exact H.
Defined.
